(** * Image-Collage: a model of [image-collage.py] and its properties

    The development embeds the class [CollageGenerator] and the driver
    [main] of [image-collage.py]:

    - Python [str] values are [string]s of 8-bit characters and stand for
      ASCII text: [PyStr.lower] moves 'A'..'Z' only, as [str.lower] does on
      ASCII text, and says nothing of names with other letters, which
      [str.lower] lowers by the Unicode tables; Python [int]s are [Z];
    - the file system is a pair of finite maps ([gmap]) from path strings to
      directory listings and to file contents; paths are compared as
      strings, two spellings of one path are two keys;
    - code that reads or writes the file system, logs, prints or raises runs
      in a state-and-exception monad [M] over the [world]; a raised
      exception keeps the state reached so far;
    - [math.sqrt] is the IEEE-754 binary64 square root ([SpecFloat.SFsqrt]
      at precision 53) of the argument converted to a double, [math.ceil]
      rounds the resulting double up to an integer;
    - [Image.open] reads the header of an image file at once and decodes
      the pixels when [convert] asks for them; a raster is a size and a
      pixel function; [Image.paste] overwrites the box that the pasted
      raster covers; the JPEG codec of [save] is a parameter, the sizes it
      accepts are not;
    - a settings file is held as the settings [config.read] finds in it,
      with [jpeg_quality] and [skip_errors] as [getint] and [getboolean]
      return them; [argparse] and the handlers of the logger are outside
      the model: [main_with_config] takes the parsed arguments.

    The first part holds the definitions, the second part the lemmas and
    theorems. *)

From Stdlib Require Import ZArith List String Ascii Bool Lia.
From Stdlib Require Import Floats.SpecFloat.
From stdpp Require Import gmap strings list sorting pretty.

Local Open Scope Z_scope.

(** ** Python strings *)

Module PyStr.

(** [c.lower()] on one ASCII character: 'A'..'Z' move to 'a'..'z'. *)
Definition lower_ascii (c : ascii) : ascii :=
  let n := N_of_ascii c in
  if ((65 <=? n) && (n <=? 90))%N then ascii_of_N (n + 32) else c.

(** [s.lower()] for ASCII text. *)
Fixpoint lower (s : string) : string :=
  match s with
  | EmptyString => EmptyString
  | String c s' => String (lower_ascii c) (lower s')
  end.

(** [s.startswith(p)] *)
Definition startswith (s p : string) : bool := String.prefix p s.

(** [s.endswith(suf)]: some tail of [s] is [suf]. *)
Fixpoint endswith (s suf : string) : bool :=
  if String.eqb s suf then true
  else match s with
       | EmptyString => false
       | String _ s' => endswith s' suf
       end.

(** [s.split(sep)] for a one-character separator: the pieces between
    the separators, empty pieces kept; never an empty list. *)
Fixpoint split (sep : ascii) (s : string) : list string :=
  match s with
  | EmptyString => [EmptyString]
  | String c s' =>
      if Ascii.eqb c sep then EmptyString :: split sep s'
      else match split sep s' with
           | piece :: rest => String c piece :: rest
           | [] => [String c EmptyString]
           end
  end.

(** [s.rfind(c) + 1] for a character [c]: the length of the longest
    prefix of [s] that ends with [c], 0 when [c] does not occur. *)
Fixpoint rfind_succ (c : ascii) (s : string) : nat :=
  match s with
  | EmptyString => 0%nat
  | String a s' =>
      match rfind_succ c s' with
      | O => if Ascii.eqb a c then 1%nat else 0%nat
      | S k => S (S k)
      end
  end.

(** [s.rstrip(c)] for a character [c]. *)
Fixpoint rstrip (c : ascii) (s : string) : string :=
  match s with
  | EmptyString => EmptyString
  | String a s' =>
      match rstrip c s' with
      | EmptyString => if Ascii.eqb a c then EmptyString else String a EmptyString
      | t => String a t
      end
  end.

(** [s == c * len(s)] *)
Fixpoint all_char (c : ascii) (s : string) : bool :=
  match s with
  | EmptyString => true
  | String a s' => Ascii.eqb a c && all_char c s'
  end.

(** [str(n)] for an integer. *)
Definition str_of_int (n : Z) : string := pretty n.

End PyStr.

(** ** [os.path] (posixpath) *)

Module PosixPath.

Definition sep : ascii := "/"%char.

(** [os.path.join(a, b)] *)
Definition join (a b : string) : string :=
  if PyStr.startswith b (String sep EmptyString) then b
  else if String.eqb a EmptyString || PyStr.endswith a (String sep EmptyString)
       then a +:+ b
       else a +:+ String sep b.

(** [os.path.basename(p)] *)
Definition basename (p : string) : string :=
  let i := PyStr.rfind_succ sep p in
  String.substring i (String.length p - i) p.

(** [os.path.dirname(p)] *)
Definition dirname (p : string) : string :=
  let i := PyStr.rfind_succ sep p in
  let head := String.substring 0 i p in
  if negb (String.eqb head EmptyString) && negb (PyStr.all_char sep head)
  then PyStr.rstrip sep head
  else head.

End PosixPath.

(** ** [math.sqrt] and [math.ceil] *)

Inductive exn : Type :=
| FileNotFoundError
| NotADirectoryError
| IsADirectoryError
| UnidentifiedImageError
| OSError
| ZeroDivisionError
| OverflowError
| ValueError
| ConfigParserError.

(** The result of an expression that may raise. *)
Inductive outcome (A : Type) : Type :=
| Return (a : A)
| Raise (e : exn).
Arguments Return {A} a.
Arguments Raise {A} e.

Module PyMath.

(** binary64 *)
Definition prec : Z := 53.
Definition emax : Z := 1024.

(** Conversion of an [int] argument to [float]: round to nearest, ties
    to even; [OverflowError] when the integer is beyond the doubles. *)
Definition float_of_int (n : Z) : outcome spec_float :=
  match binary_normalize prec emax n 0 false with
  | S754_infinity _ => Raise OverflowError
  | x => Return x
  end.

(** [math.sqrt(n)] for an [int] [n]. *)
Definition sqrt (n : Z) : outcome spec_float :=
  match float_of_int n with
  | Raise e => Raise e
  | Return x =>
      match x with
      | S754_finite true _ _ => Raise ValueError
      | _ => Return (SFsqrt prec emax x)
      end
  end.

(** [math.ceil(x)] for a [float] [x]. *)
Definition ceil (x : spec_float) : outcome Z :=
  match x with
  | S754_zero _ => Return 0
  | S754_nan => Raise ValueError
  | S754_infinity _ => Raise OverflowError
  | S754_finite s m e =>
      let v := cond_Zopp s (Zpos m) in
      Return (if 0 <=? e then v * 2 ^ e else - ((- v) / 2 ^ (- e)))
  end.

End PyMath.

(** [a // b] and [a % b] on [int]. *)
Definition floordiv (a b : Z) : outcome Z :=
  if b =? 0 then Raise ZeroDivisionError else Return (a / b).

Definition pymod (a b : Z) : outcome Z :=
  if b =? 0 then Raise ZeroDivisionError else Return (a mod b).

(** [range(start, stop, step)] as a list, for a positive [step] (the only
    call has [step = images_per_collage >= 1]); its length is
    [ceil((stop - start) / step)]. *)
Definition range3 (start stop step : Z) : list Z :=
  (fun k : nat => start + Z.of_nat k * step)
    <$> seq 0 (Z.to_nat ((stop - start + step - 1) / step)).

(** [enumerate(l)] as a list. *)
Definition enumerate {A} (l : list A) : list (Z * A) :=
  imap (fun i x => (Z.of_nat i, x)) l.

(** [l[i:j]] for [0 <= i]: indices past the end are clipped. *)
Definition slice {A} (l : list A) (i j : Z) : list A :=
  take (Z.to_nat (j - i)) (drop (Z.to_nat i) l).

(** ** Images and the file system *)

Definition rgb : Type := Z * Z * Z.
Definition white : rgb := (255, 255, 255).

(** An RGB raster in memory: [r_px x y] is the pixel in column [x] and row
    [y]; only [0 <= x < width] and [0 <= y < height] are part of it. *)
Record raster : Type := { r_size : Z * Z; r_px : Z -> Z -> rgb }.

(** What [Image.open] finds in an image file: the header (mode and size) is
    read at once, the pixels are decoded when first needed. [im_load] is
    the decoded picture as [convert('RGB')] renders it, [None] for a file
    whose pixel data cannot be decoded (truncated or damaged). *)
Record image : Type :=
  { im_mode : string; im_size : Z * Z; im_load : option (Z -> Z -> rgb) }.

(** ** [configparser]: the [DEFAULT] section after [_load_config], with
    [jpeg_quality] and [skip_errors] as [getint] and [getboolean] read
    them. *)
Record config : Type :=
  { supported_formats : string;
    jpeg_quality : Z;
    skip_errors : bool }.

Definition default_config : config :=
  {| supported_formats := ".jpg,.jpeg,.png";
     jpeg_quality := 85;
     skip_errors := true |}.

(** A regular file, as its two readers see it: an image file that
    [Image.open] identifies; a settings file that [Image.open] rejects and
    [config.read] parses, [c] being its [DEFAULT] section over the
    defaults; or something that both reject. *)
Inductive file : Type :=
| Junk
| Picture (i : image)
| Ini (c : config).

(** A file of no bytes: no image, and a settings file without a setting,
    so that the defaults stay. *)
Definition empty_file : file := Ini default_config.

Inductive level : Type := DEBUG | INFO | WARNING | ERROR.

Definition level_num (l : level) : Z :=
  match l with DEBUG => 10 | INFO => 20 | WARNING => 30 | ERROR => 40 end.

(** The messages of the logger calls, one constructor per call with the
    values its f-string formats. *)
Inductive message : Type :=
| Scanning_directory (directory : string)
| Supported_formats (formats : list string)
| Skipping_existing_collage (name : string)
| Found_image (path : string)
| Found_images (n : Z)
| No_image_files_found
| Processing_images (n : Z)
| Target_size_too_small (target_size : Z)
| Thumbnail_size (thumb_size : Z * Z)
| Images_per_row (n : Z)
| Images_per_collage (n : Z)
| Error_processing (path : string) (e : exn)
| Created_collage (k n : Z).

(** The lines [main] prints. *)
Inductive line : Type :=
| Processing_root_thumbs
| Found_in_root (n : Z)
| Created_collages (n : Z)
| Created_collages_for (n : Z) (subdir : string)
| Collage_path (path : string)
| No_subdirectories
| Processing_subdirectory (subdir : string)
| No_thumbs_directory (subdir : string)
| No_images_found (thumbs_dir : string)
| Found_in_subdir (n : Z) (subdir : string).

(** The state the program runs in. [dirs] maps a directory path to the
    names [os.listdir] returns for it, [files] maps the path of a regular
    file to its contents; a listed name that is neither is a special file
    (socket, device, dangling link). *)
Record world : Type :=
  { dirs : gmap string (list string);
    files : gmap string file;
    logged : list (level * message);
    printed : list line }.

(** *** The monad of state and exceptions *)

Definition M (A : Type) : Type := world -> outcome A * world.

Definition ret {A} (a : A) : M A := fun w => (Return a, w).

Definition raise {A} (e : exn) : M A := fun w => (Raise e, w).

Definition bind {A B} (c : M A) (k : A -> M B) : M B :=
  fun w => match c w with
           | (Return a, w') => k a w'
           | (Raise e, w') => (Raise e, w')
           end.

(** [try: c  except Exception as e: h e] *)
Definition try_except {A} (c : M A) (h : exn -> M A) : M A :=
  fun w => match c w with
           | (Return a, w') => (Return a, w')
           | (Raise e, w') => h e w'
           end.

Definition lift {A} (r : outcome A) : M A := fun w => (r, w).

Notation "x <- c ;; k" := (bind c (fun x => k))
  (at level 100, c at next level, right associativity).
Notation "c ;;; k" := (bind c (fun _ => k))
  (at level 100, right associativity).

(** [for x in l: body x] *)
Fixpoint for_each {A} (l : list A) (body : A -> M unit) : M unit :=
  match l with
  | [] => ret tt
  | x :: l' => body x ;;; for_each l' body
  end.

(** A [for] loop that updates a local variable [acc]. *)
Fixpoint for_fold {A S} (l : list A) (body : S -> A -> M S) (acc : S) : M S :=
  match l with
  | [] => ret acc
  | x :: l' => acc' <- body acc x ;; for_fold l' body acc'
  end.

(** *** Logging and printing *)

(** [_setup_logging] sets the logger to [INFO]: a record below that level
    is dropped. *)
Definition logger_level : level := INFO.

Definition log (l : level) (m : message) : M unit :=
  fun w =>
    (Return tt,
     if level_num logger_level <=? level_num l
     then {| dirs := dirs w; files := files w;
             logged := logged w ++ [(l, m)]; printed := printed w |}
     else w).

Definition print (ln : line) : M unit :=
  fun w =>
    (Return tt,
     {| dirs := dirs w; files := files w;
        logged := logged w; printed := printed w ++ [ln] |}).

(** *** [os] *)

Definition isfile (path : string) : M bool :=
  fun w => (Return (bool_decide (is_Some (files w !! path))), w).

Definition isdir (path : string) : M bool :=
  fun w => (Return (bool_decide (is_Some (dirs w !! path))), w).

Definition listdir (path : string) : M (list string) :=
  fun w =>
    match dirs w !! path with
    | Some names => (Return names, w)
    | None =>
        (Raise (if bool_decide (is_Some (files w !! path))
                then NotADirectoryError else FileNotFoundError), w)
    end.

(** [[x for x in l if p x]] with a condition that reads the state. *)
Fixpoint filter_if {A} (p : A -> M bool) (l : list A) : M (list A) :=
  match l with
  | [] => ret []
  | x :: l' =>
      b <- p x ;;
      rest <- filter_if p l' ;;
      ret (if b then x :: rest else rest)
  end.

(** *** [PIL.Image] *)

Module Image.

(** [Image.open(path)]: the path is opened for reading, then the header
    is identified. *)
Definition open (path : string) : M image :=
  fun w =>
    match files w !! path with
    | Some (Picture i) => (Return i, w)
    | Some _ => (Raise UnidentifiedImageError, w)
    | None =>
        (Raise (if bool_decide (is_Some (dirs w !! path))
                then IsADirectoryError else FileNotFoundError), w)
    end.

(** [img.convert('RGB')]: decodes the pixels. *)
Definition convert_RGB (i : image) : M raster :=
  match im_load i with
  | None => raise OSError
  | Some px => ret {| r_size := im_size i; r_px := px |}
  end.

(** [Image.new('RGB', size, color)] *)
Definition new (size : Z * Z) (color : rgb) : M raster :=
  if (fst size <? 0) || (snd size <? 0) then raise ValueError
  else ret {| r_size := size; r_px := fun _ _ => color |}.

(** [canvas.paste(img, (x0, y0))]: the pixels of [img], at their own
    size, replace those of the canvas from [(x0, y0)] on. *)
Definition paste (canvas img : raster) (box : Z * Z) : raster :=
  let '(x0, y0) := box in
  {| r_size := r_size canvas;
     r_px := fun x y =>
       if (x0 <=? x) && (x <? x0 + fst (r_size img))
          && (y0 <=? y) && (y <? y0 + snd (r_size img))
       then r_px img (x - x0) (y - y0)
       else r_px canvas x y |}.

End Image.

(** [len(l)] *)
Definition len {A} (l : list A) : Z := Z.of_nat (length l).

(** [sorted(l)] on strings: ascending by code points. Python's sort is a
    stable merge sort; on a total order every sorting algorithm returns the
    same list. *)
Definition sorted (l : list string) : list string := merge_sort String.le l.

(** Creating or replacing the regular file [path]: its name is added to
    the listing of its directory when it is not there yet. *)
Definition write_file (path : string) (f : file) : M unit :=
  fun w =>
    let name := PosixPath.basename path in
    (Return tt,
     {| dirs := alter (fun names => if bool_decide (name ∈ names) then names
                                    else names ++ [name])
                      (PosixPath.dirname path) (dirs w);
        files := <[path := f]> (files w);
        logged := logged w;
        printed := printed w |}).

(** The largest side the JPEG encoder accepts, and the sizes it
    encodes. *)
Definition jpeg_max_dimension : Z := 65500.

Definition encodable (size : Z * Z) : bool :=
  (0 <? fst size) && (fst size <=? jpeg_max_dimension)
  && (0 <? snd size) && (snd size <=? jpeg_max_dimension).

(** ** [_load_config] and [__init__] *)

(** [os.path.exists(path)] *)
Definition path_exists (path : string) : M bool :=
  fun w => (Return (bool_decide (is_Some (files w !! path))
                    || bool_decide (is_Some (dirs w !! path))), w).

(** [config.read(path)] on the parser that holds the defaults: a path that
    cannot be opened is passed over, a file that cannot be parsed
    raises. *)
Definition read_config (path : string) : M config :=
  fun w =>
    match files w !! path with
    | Some (Ini c) => (Return c, w)
    | Some _ => (Raise ConfigParserError, w)
    | None => (Return default_config, w)
    end.

(** [with open(path, 'w') as config_file: config.write(config_file)] for
    the parser that holds the defaults; the file is created in a directory
    that exists, the current one for a path without directory part. *)
Definition write_config (path : string) : M unit :=
  fun w =>
    let parent := PosixPath.dirname path in
    if String.eqb path EmptyString then (Raise FileNotFoundError, w)
    else if String.eqb parent EmptyString
            || bool_decide (is_Some (dirs w !! parent))
    then write_file path (Ini default_config) w
    else (Raise (if bool_decide (is_Some (files w !! parent))
                 then NotADirectoryError else FileNotFoundError), w).

(** Lines 23 to 43. The loop of lines 39 to 41 finds every key of the
    defaults in the [DEFAULT] section, which line 31 filled, and changes
    nothing. *)
Definition _load_config (config_path : string) : M config :=
  found <- path_exists config_path ;;
  if found then read_config config_path
  else write_config config_path ;;; ret default_config.

(** Lines 10 to 12: [_setup_logging] touches no file and writes
    nothing. *)
Definition CollageGenerator_init (config_path : string) : M config :=
  _load_config config_path.

(** ** [class CollageGenerator] and [main] *)

Section CollageGenerator.

(** [jpeg quality r] is the raster a decoder reads back from the JPEG
    encoding of [r] at [quality]: the codec is lossy, so it need not be
    [r] itself. *)
Variable jpeg : Z -> raster -> raster.

(** [self.config] *)
Variable cfg : config.

(** [collage.save(path, quality=quality)] for a [.jpg] path. [Image.save]
    opens the path for writing, which empties a file that is there, and
    then runs the encoder; when the encoder raises, a file that [save]
    created is removed again and the exception is passed on. The encoder
    raises [ValueError] for an image without pixels and [OSError] for a
    side above [jpeg_max_dimension]. *)
Definition save (collage : raster) (path : string) (quality : Z) : M unit :=
  fun w =>
    if encodable (r_size collage) then
      let stored := jpeg quality collage in
      write_file path
        (Picture {| im_mode := "RGB"; im_size := r_size stored;
                    im_load := Some (r_px stored) |}) w
    else
      (Raise (if (fst (r_size collage) =? 0) || (snd (r_size collage) =? 0)
              then ValueError else OSError),
       if bool_decide (is_Some (files w !! path))
       then {| dirs := dirs w; files := <[path := empty_file]> (files w);
               logged := logged w; printed := printed w |}
       else w).

(** The two tests of the loop of [get_image_files] (lines 59 and 63) as
    one predicate: whether the loop appends the file. *)
Definition keep_file (formats : list string) (file : string) : bool :=
  if PyStr.startswith (PyStr.lower file) "collage_" then false
  else existsb (fun fmt => PyStr.endswith (PyStr.lower file) fmt) formats.

Definition get_image_files (directory : string) : M (list string) :=
  let formats := PyStr.split ","%char (supported_formats cfg) in
  log INFO (Scanning_directory directory) ;;;
  log INFO (Supported_formats formats) ;;;
  names <- listdir directory ;;
  files <- filter_if (fun f => isfile (PosixPath.join directory f)) names ;;
  image_files <-
    for_fold files
      (fun image_files file =>
         if PyStr.startswith (PyStr.lower file) "collage_" then
           log DEBUG (Skipping_existing_collage file) ;;;
           ret image_files
         else if existsb (fun fmt => PyStr.endswith (PyStr.lower file) fmt)
                         formats then
           let full_path := PosixPath.join directory file in
           log DEBUG (Found_image full_path) ;;;
           ret (image_files ++ [full_path])
         else ret image_files)
      [] ;;
  log INFO (Found_images (len image_files)) ;;;
  ret (sorted image_files).

Definition calculate_grid_size (num_images target_size : Z)
  : outcome (Z * Z) :=
  match PyMath.sqrt num_images with
  | Raise e => Raise e
  | Return x =>
      match PyMath.ceil x with
      | Raise e => Raise e
      | Return grid_size => Return (grid_size, grid_size)
      end
  end.

(** Lines 83 to 85: the target size the rest of [create_collages] uses. *)
Definition clamp_target_size (target_size : Z) : Z :=
  if target_size <? 100 then 2000 else target_size.

(** Lines 83 to 94: [(images_per_row, images_per_collage)]. *)
Definition compute_chunking (thumb_width target_size : Z)
  : outcome (Z * Z) :=
  let target_size := clamp_target_size target_size in
  match floordiv target_size thumb_width with
  | Raise e => Raise e
  | Return q =>
      let images_per_row := Z.max 1 q in
      let images_per_collage := Z.max 1 (images_per_row * images_per_row) in
      Return (images_per_row, images_per_collage)
  end.

(** Lines 111 to 122: the body of the loop over one chunk. *)
Definition paste_image (thumb_size : Z * Z) (cols : Z)
    (collage : raster) (entry : Z * string) : M raster :=
  let '(idx, img_path) := entry in
  try_except
    (row <- lift (floordiv idx cols) ;;
     col <- lift (pymod idx cols) ;;
     img <- Image.open img_path ;;
     img <- Image.convert_RGB img ;;
     ret (Image.paste collage img
            (col * fst thumb_size, row * snd thumb_size)))
    (fun e =>
       log ERROR (Error_processing img_path e) ;;;
       if negb (skip_errors cfg) then raise e else ret collage).

Definition collage_name (chunk_idx : Z) : string :=
  "collage_" +:+ PyStr.str_of_int (chunk_idx + 1) +:+ ".jpg".

(** Lines 105 to 128: the body of the loop over the chunks;
    [collage_paths] is the list the loop appends to. *)
Definition make_collage (image_files : list string) (target_size : Z)
    (thumb_size : Z * Z) (images_per_collage : Z) (output_dir : string)
    (collage_paths : list string) (entry : Z * Z) : M (list string) :=
  let '(chunk_idx, i) := entry in
  let chunk_files := slice image_files i (i + images_per_collage) in
  grid <- lift (calculate_grid_size (len chunk_files) target_size) ;;
  let '(rows, cols) := grid in
  collage <- Image.new (cols * fst thumb_size, rows * snd thumb_size) white ;;
  collage <- for_fold (enumerate chunk_files)
               (paste_image thumb_size cols) collage ;;
  let output_path := PosixPath.join output_dir (collage_name chunk_idx) in
  save collage output_path (jpeg_quality cfg) ;;;
  log INFO (Created_collage (chunk_idx + 1) (len chunk_files)) ;;;
  ret (collage_paths ++ [output_path]).

Definition create_collages (image_files : list string) (target_size : Z)
  : M (list string) :=
  match image_files with
  | [] => log ERROR No_image_files_found ;;; ret []
  | first :: _ =>
      log INFO (Processing_images (len image_files)) ;;;
      (if target_size <? 100
       then log WARNING (Target_size_too_small target_size)
       else ret tt) ;;;
      sample_image <- Image.open first ;;
      let thumb_size := im_size sample_image in
      chunking <- lift (compute_chunking (fst thumb_size) target_size) ;;
      let '(images_per_row, images_per_collage) := chunking in
      log INFO (Thumbnail_size thumb_size) ;;;
      log INFO (Images_per_row images_per_row) ;;;
      log INFO (Images_per_collage images_per_collage) ;;;
      let output_dir := PosixPath.dirname first in
      for_fold
        (enumerate (range3 0 (len image_files) images_per_collage))
        (make_collage image_files (clamp_target_size target_size)
           thumb_size images_per_collage output_dir)
        []
  end.

(** Lines 171 to 192: the body of the loop over the subdirectories. *)
Definition process_subdir (directory : string) (size : Z)
    (subdir : string) : M unit :=
  let subdir_path := PosixPath.join directory subdir in
  print (Processing_subdirectory subdir) ;;;
  let thumbs_dir := PosixPath.join subdir_path "thumbs" in
  has_thumbs <- isdir thumbs_dir ;;
  if negb has_thumbs then print (No_thumbs_directory subdir)
  else
    image_files <- get_image_files thumbs_dir ;;
    match image_files with
    | [] => print (No_images_found thumbs_dir)
    | _ :: _ =>
        print (Found_in_subdir (len image_files) subdir) ;;;
        collage_paths <- create_collages image_files size ;;
        match collage_paths with
        | [] => ret tt
        | _ :: _ =>
            print (Created_collages_for (len collage_paths) subdir) ;;;
            for_each collage_paths (fun path => print (Collage_path path))
        end
    end.

(** Lines 145 to 192 of [main]: what follows once the arguments are
    parsed into [directory] and [size] and the generator is built with
    [cfg]. *)
Definition main (directory : string) (size : Z) : M unit :=
  let root_thumbs := PosixPath.join directory "thumbs" in
  has_root <- isdir root_thumbs ;;
  if has_root then
    print Processing_root_thumbs ;;;
    image_files <- get_image_files root_thumbs ;;
    match image_files with
    | [] => ret tt
    | _ :: _ =>
        print (Found_in_root (len image_files)) ;;;
        collage_paths <- create_collages image_files size ;;
        match collage_paths with
        | [] => ret tt
        | _ :: _ =>
            print (Created_collages (len collage_paths)) ;;;
            for_each collage_paths (fun path => print (Collage_path path))
        end
    end
  else
    names <- listdir directory ;;
    subdirs <- filter_if (fun d => isdir (PosixPath.join directory d)) names ;;
    match subdirs with
    | [] => print No_subdirectories
    | _ :: _ => for_each subdirs (process_subdir directory size)
    end.

End CollageGenerator.

(** [main] from line 143 on, for the parsed arguments [args.config],
    [args.directory] and [args.size]. *)
Definition main_with_config (jpeg : Z -> raster -> raster)
    (config_path directory : string) (size : Z) : M unit :=
  cfg <- CollageGenerator_init config_path ;;
  main jpeg cfg directory size.

(** ** Definitions used to state the properties *)

(** [c in s] for a character. *)
Fixpoint has_char (c : ascii) (s : string) : bool :=
  match s with
  | EmptyString => false
  | String a s' => Ascii.eqb a c || has_char c s'
  end.

(** What [os.path.isfile] and [os.path.isdir] answer in a state. *)
Definition is_file (w : world) (path : string) : bool :=
  bool_decide (is_Some (files w !! path)).

Definition is_dir (w : world) (path : string) : bool :=
  bool_decide (is_Some (dirs w !! path)).

(** A state with more log records, and one with more printed lines. *)
Definition add_logs (w : world) (records : list (level * message)) : world :=
  {| dirs := dirs w; files := files w;
     logged := logged w ++ records; printed := printed w |}.

Definition add_lines (w : world) (lines : list line) : world :=
  {| dirs := dirs w; files := files w;
     logged := logged w; printed := printed w ++ lines |}.

(** The state after [write_file]. *)
Definition written (path : string) (f : file) (w : world) : world :=
  snd (write_file path f w).

(** The list [supported_formats] of [get_image_files]. *)
Definition scan_formats (cfg : config) : list string :=
  PyStr.split ","%char (supported_formats cfg).

(** The paths [get_image_files] collects, before sorting, from the names
    [os.listdir] returned. *)
Definition scanned (cfg : config) (w : world) (directory : string)
    (names : list string) : list string :=
  PosixPath.join directory <$>
    List.filter (keep_file (scan_formats cfg))
      (List.filter (fun f => is_file w (PosixPath.join directory f)) names).

(** The raster that [Image.open] followed by [convert('RGB')] yields for a
    path, [None] when either raises. *)
Definition load_image (fs : gmap string file) (path : string) : option raster :=
  match fs !! path with
  | Some (Picture i) =>
      match im_load i with
      | Some px => Some {| r_size := im_size i; r_px := px |}
      | None => None
      end
  | _ => None
  end.

(** What the body of the loop over a chunk pastes for the entry
    [(idx, path)], and where; [None] when the body raises. *)
Definition placement (fs : gmap string file) (thumb_size : Z * Z) (cols : Z)
    (entry : Z * string) : option (raster * (Z * Z)) :=
  if cols =? 0 then None
  else match load_image fs (snd entry) with
       | Some img => Some (img, (fst entry mod cols * fst thumb_size,
                                 fst entry / cols * snd thumb_size))
       | None => None
       end.

(** The exception the body of the loop over a chunk raises, and its
    handler logs, for an image that cannot be placed: that of the
    division, of [Image.open] or of [convert]. *)
Definition paste_error (w : world) (cols : Z) (path : string) : exn :=
  if cols =? 0 then ZeroDivisionError
  else match files w !! path with
       | Some (Picture _) => OSError
       | Some _ => UnidentifiedImageError
       | None => if bool_decide (is_Some (dirs w !! path))
                 then IsADirectoryError else FileNotFoundError
       end.



(** The canvas [Image.new('RGB', size, 'white')] returns. *)
Definition blank (size : Z * Z) : raster :=
  {| r_size := size; r_px := fun _ _ => white |}.




(** The path chunk [chunk_idx] (counted from 0) is saved to. *)
Definition output_path (output_dir : string) (chunk_idx : Z) : string :=
  PosixPath.join output_dir (collage_name chunk_idx).







(** [s.isascii()] *)
Fixpoint is_ascii (s : string) : bool :=
  match s with
  | EmptyString => true
  | String a s' => (N_of_ascii a <? 128)%N && is_ascii s'
  end.

(** An ASCII capital letter, and a string that holds one. *)
Definition is_upper (c : ascii) : bool :=
  ((65 <=? N_of_ascii c) && (N_of_ascii c <=? 90))%N.

Fixpoint has_upper (s : string) : bool :=
  match s with
  | EmptyString => false
  | String a s' => is_upper a || has_upper s'
  end.

(** What a run may leave behind: the state [w'] differs from [w] at most
    by collages saved, or begun, in the directories [D]. A file is as it
    was or is at an output path of [D]; a listing only gains collage
    names; no directory appears; nothing is printed; a listing that
    changed is that of an output path of [D]. *)
Definition collages_added (D : string -> Prop) (w w' : world) : Prop :=
  (forall p,
      files w' !! p = files w !! p \/
      exists d k, D d /\ p = output_path d k) /\
  (forall d,
      match dirs w !! d with
      | Some names =>
          exists extra,
            dirs w' !! d = Some (names ++ extra) /\
            Forall (fun n => exists k, n = collage_name k) extra
      | None => dirs w' !! d = None
      end) /\
  printed w' = printed w /\
  (forall d0,
      dirs w' !! d0 = dirs w !! d0 \/
      exists d k, D d /\ d0 = PosixPath.dirname (output_path d k)).

(** The file system of [w'] is that of [w] after some collages were
    saved. *)
Definition fs_grown (w w' : world) : Prop :=
  (forall p, files w' !! p = files w !! p \/ exists d k, p = output_path d k) /\
  (forall d,
      match dirs w !! d with
      | Some names =>
          exists extra,
            dirs w' !! d = Some (names ++ extra) /\
            Forall (fun n => exists k, n = collage_name k) extra
      | None => dirs w' !! d = None
      end).



(** ** Example data *)

(** An image file of one colour, an image file whose pixel data is cut
    off, a raster of one colour, and a codec that loses nothing. *)
Definition solid (width height : Z) (color : rgb) : file :=
  Picture {| im_mode := "RGB"; im_size := (width, height);
             im_load := Some (fun _ _ => color) |}.

Definition truncated (width height : Z) : file :=
  Picture {| im_mode := "RGB"; im_size := (width, height); im_load := None |}.


Definition lossless (quality : Z) (r : raster) : raster := r.

Definition upper_config : config :=
  {| supported_formats := ".JPG"; jpeg_quality := 85; skip_errors := true |}.

Definition lower_config : config :=
  {| supported_formats := ".jpg"; jpeg_quality := 85; skip_errors := true |}.

Definition strict_config : config :=
  {| supported_formats := ".jpg,.jpeg,.png"; jpeg_quality := 85;
     skip_errors := false |}.

(** A directory with one file name in capitals and one in small letters. *)
Definition mixed_case_dir : world :=
  {| dirs := {[ "pics" := ["a.JPG"; "b.jpg"] ]};
     files := {[ "pics/a.JPG" := solid 4 4 white;
                 "pics/b.jpg" := solid 4 4 white ]};
     logged := []; printed := [] |}.

(** Two subdirectories with thumbnails; the second image of the first one
    is damaged. *)
Definition two_albums : world :=
  {| dirs := {[ "p" := ["a"; "b"];
                "p/a" := ["thumbs"]; "p/a/thumbs" := ["x.jpg"; "y.jpg"];
                "p/b" := ["thumbs"]; "p/b/thumbs" := ["z.jpg"] ]};
     files := {[ "p/a/thumbs/x.jpg" := solid 10 10 (1, 2, 3);
                 "p/a/thumbs/y.jpg" := truncated 10 10;
                 "p/b/thumbs/z.jpg" := solid 10 10 (4, 5, 6) ]};
     logged := []; printed := [] |}.

(** Five thumbnails of 400 by 400 next to an older collage and a text
    file. *)
Definition five_thumbs : world :=
  {| dirs := {[ "pics" := ["thumbs"];
                "pics/thumbs" := ["3.png"; "1.JPG"; "collage_1.jpg"; "5.jpeg";
                                  "2.jpg"; "notes.txt"; "4.jpg"] ]};
     files := {[ "pics/thumbs/1.JPG" := solid 400 400 (10, 0, 0);
                 "pics/thumbs/2.jpg" := solid 400 400 (20, 0, 0);
                 "pics/thumbs/3.png" := solid 400 400 (30, 0, 0);
                 "pics/thumbs/4.jpg" := solid 400 400 (40, 0, 0);
                 "pics/thumbs/5.jpeg" := solid 400 400 (50, 0, 0);
                 "pics/thumbs/collage_1.jpg" := solid 800 800 (0, 0, 0);
                 "pics/thumbs/notes.txt" := Junk ]};
     logged := []; printed := [] |}.

Definition five_paths : list string :=
  ["pics/thumbs/1.JPG"; "pics/thumbs/2.jpg"; "pics/thumbs/3.png";
   "pics/thumbs/4.jpg"; "pics/thumbs/5.jpeg"].


(** A directory without an eligible file. *)
Definition no_images : world :=
  {| dirs := {[ "empty" := ["notes.txt"; "collage_1.jpg"; "sub"];
                "empty/sub" := [] ]};
     files := {[ "empty/notes.txt" := Junk;
                 "empty/collage_1.jpg" := solid 800 800 (0, 0, 0) ]};
     logged := []; printed := [] |}.


(** The directory without an eligible file, with a settings file that
    holds the defaults. *)
Definition configured : world :=
  {| dirs := dirs no_images;
     files := <[ "settings.ini" := Ini default_config ]> (files no_images);
     logged := []; printed := [] |}.


(** A directory with thumbnails of its own, a subdirectory with
    thumbnails, and a settings file. *)
Definition rooted_albums : world :=
  {| dirs := {[ "p" := ["a"; "thumbs"];
                "p/thumbs" := ["r.jpg"];
                "p/a" := ["thumbs"]; "p/a/thumbs" := ["x.jpg"] ]};
     files := {[ "p/thumbs/r.jpg" := solid 10 10 (7, 8, 9);
                 "p/a/thumbs/x.jpg" := solid 10 10 (1, 2, 3);
                 "settings.ini" := Ini default_config ]};
     logged := []; printed := [] |}.

(** A format list that ends with a comma. *)
Definition trailing_comma_config : config :=
  {| supported_formats := ".jpg,"; jpeg_quality := 85; skip_errors := true |}.

(** * Properties *)

(** ** Worked examples of the string and path functions *)


Example lower_mixed : PyStr.lower "IMG_01.JpG" = "img_01.jpg".
Proof. reflexivity. Qed.

Example split_default :
  PyStr.split ","%char ".jpg,.jpeg,.png" = [".jpg"; ".jpeg"; ".png"].
Proof. reflexivity. Qed.

Example split_empty : PyStr.split ","%char "" = [""].
Proof. reflexivity. Qed.

Example join_plain : PosixPath.join "a/thumbs" "x.jpg" = "a/thumbs/x.jpg".
Proof. reflexivity. Qed.

Example join_slash : PosixPath.join "a/thumbs/" "x.jpg" = "a/thumbs/x.jpg".
Proof. reflexivity. Qed.

Example dirname_plain : PosixPath.dirname "a/thumbs/x.jpg" = "a/thumbs".
Proof. reflexivity. Qed.

Example dirname_root : PosixPath.dirname "/x.jpg" = "/".
Proof. reflexivity. Qed.

Example dirname_none : PosixPath.dirname "x.jpg" = "".
Proof. reflexivity. Qed.

Example dirname_slashes : PosixPath.dirname "a//x.jpg" = "a".
Proof. reflexivity. Qed.

Example str_12 : PyStr.str_of_int 12 = "12".
Proof. reflexivity. Qed.

(** ** The square root in binary64 *)

Lemma digits2_pos_size p : digits2_pos p = Pos.size p.
Proof. induction p; simpl; congruence. Qed.

Lemma digits2_pos_log2 p : Z.pos (digits2_pos p) = Z.log2 (Z.pos p) + 1.
Proof. rewrite digits2_pos_size. destruct p; simpl; lia. Qed.

Lemma digits2_pos_bounds p :
  2 ^ (Z.pos (digits2_pos p) - 1) <= Z.pos p < 2 ^ Z.pos (digits2_pos p).
Proof.
  rewrite digits2_pos_log2.
  replace (Z.log2 (Z.pos p) + 1 - 1) with (Z.log2 (Z.pos p)) by lia.
  apply Z.log2_spec. lia.
Qed.

Lemma digits2_pos_unique p d :
  2 ^ (d - 1) <= Z.pos p < 2 ^ d -> Z.pos (digits2_pos p) = d.
Proof.
  intros Hb. rewrite digits2_pos_log2.
  assert (0 < d).
  { destruct (Z.le_gt_cases d 0) as [Hd|Hd]; [|lia].
    assert (2 ^ d <= 2 ^ 0) by (apply Z.pow_le_mono_r; lia).
    simpl in *; lia. }
  rewrite (Z.log2_unique (Z.pos p) (d - 1)); try lia.
  replace (Z.succ (d - 1)) with d by lia. exact Hb.
Qed.

Lemma iter_xO_pow2 p k : Z.pos (Pos.iter xO p k) = Z.pos p * 2 ^ Z.pos k.
Proof.
  change (Pos.iter xO p k) with (shift_pos k p).
  rewrite shift_pos_correct. change (Z.pow_pos 2 k) with (2 ^ Z.pos k). lia.
Qed.

Lemma loc_of_shr_record_of_loc m l :
  loc_of_shr_record (shr_record_of_loc m l) = l.
Proof. destruct l as [|[]]; reflexivity. Qed.

Lemma shr_m_record_of_loc m l : shr_m (shr_record_of_loc m l) = m.
Proof. destruct l as [|[]]; reflexivity. Qed.

(** Rounding a mantissa that already has 53 digits and stays there. *)
Lemma binary_round_aux_normal q e l m :
  Z.pos (digits2_pos q) = 53 ->
  round_nearest_even (Z.pos q) l = Z.pos m ->
  Z.pos (digits2_pos m) = 53 ->
  -1074 <= e <= 971 ->
  binary_round_aux 53 1024 false (Z.pos q) e l = S754_finite false m e.
Proof.
  intros Hq Hm Hdm He.
  unfold binary_round_aux, shr_fexp, fexp, emin. simpl Zdigits2. rewrite Hq.
  replace (Z.max (53 + e - 53) (3 - 1024 - 53) - e) with 0 by lia.
  simpl shr. cbv beta iota zeta. rewrite loc_of_shr_record_of_loc, shr_m_record_of_loc, Hm.
  simpl Zdigits2. rewrite Hdm.
  replace (Z.max (53 + e - 53) (3 - 1024 - 53) - e) with 0 by lia.
  simpl. change (1024 - 53) with 971. destruct (e <=? 971) eqn:E; [reflexivity | lia].
Qed.

Lemma float_of_int_small p :
  Z.pos p < 2 ^ 53 ->
  let d := Z.pos (digits2_pos p) in
  PyMath.float_of_int (Z.pos p)
  = Return (S754_finite false (Z.to_pos (Z.pos p * 2 ^ (53 - d))) (d - 53)).
Proof.
  intros Hp d.
  pose proof (digits2_pos_bounds p) as Hb. fold d in Hb.
  assert (0 < d) by (unfold d; lia).
  assert (d <= 53).
  { destruct (Z.le_gt_cases d 53); [assumption|].
    assert (2 ^ 53 <= 2 ^ (d - 1)) by (apply Z.pow_le_mono_r; lia). lia. }
  unfold PyMath.float_of_int, binary_normalize, binary_round, PyMath.prec, PyMath.emax.
  unfold shl_align, fexp, emin. fold d.
  replace (Z.max (d + 0 - 53) (3 - 1024 - 53) - 0) with (d - 53) by lia.
  assert (Hpow' : 2 ^ d = 2 ^ (d - 1) * 2 ^ 1).
  { rewrite <- Z.pow_add_r by lia. f_equal; lia. }
  assert (0 < 2 ^ (53 - d)) by (apply Z.pow_pos_nonneg; lia).
  destruct (d - 53) as [|k|k] eqn:Ek; try lia.
  - replace (53 - d) with 0 by lia. rewrite Z.mul_1_r. simpl Z.to_pos.
    rewrite binary_round_aux_normal with (m := p); eauto; try lia.
  - assert (53 - d = Z.pos k) as -> by lia.
    rewrite <- iter_xO_pow2. simpl Z.to_pos.
    assert (Z.pos (digits2_pos (Pos.iter xO p k)) = 53).
    { apply digits2_pos_unique. rewrite iter_xO_pow2.
      replace (Z.pos k) with (53 - d) in * by lia. simpl (53 - 1).
      assert (2 ^ 52 = 2 ^ (53 - d) * 2 ^ (d - 1)).
      { rewrite <- Z.pow_add_r by lia. f_equal; lia. }
      nia. }
    rewrite binary_round_aux_normal with (m := Pos.iter xO p k); eauto; try lia.
    do 2 f_equal. lia.
Qed.

(** The square root of a normal double with a 53-digit mantissa [m] and an
    exponent [e]: the mantissa of the result is the integer square root of
    [m * 2 ^ s], or one more. *)
Lemma SFsqrt_normal m e :
  Z.pos (digits2_pos m) = 53 ->
  -1000 <= e <= 900 ->
  let e' := (e + 54) / 2 - 53 in
  let s := e - 2 * e' in
  let q := Z.sqrt (Z.pos m * 2 ^ s) in
  let r := Z.pos m * 2 ^ s - q * q in
  exists mq : positive,
    SFsqrt 53 1024 (S754_finite false m e) = S754_finite false mq e' /\
    (Z.pos mq = q \/ (Z.pos mq = q + 1 /\ q < r)) /\
    (r = 0 -> Z.pos mq = q) /\
    0 <= r <= 2 * q /\
    (s = 52 \/ s = 53).
Proof.
  intros Hd He e' s q r.
  assert (Hs : s = 52 \/ s = 53).
  { unfold s, e'. pose proof (Z.div_mod (e + 54) 2 ltac:(lia)).
    pose proof (Z.mod_pos_bound (e + 54) 2 ltac:(lia)). lia. }
  pose proof (digits2_pos_bounds m) as Hm. rewrite Hd in Hm. simpl (53 - 1) in Hm.
  assert (Hpos : 0 <= Z.pos m * 2 ^ s) by (destruct Hs as [-> | ->]; lia).
  pose proof (Z.sqrtrem_spec _ Hpos) as Hsq.
  pose proof (Z.sqrtrem_sqrt (Z.pos m * 2 ^ s)) as Hfst.
  destruct (Z.sqrtrem (Z.pos m * 2 ^ s)) as [q0 r0] eqn:Esq.
  simpl in Hfst. fold q in Hfst. subst q0.
  destruct Hsq as [Hval Hr].
  assert (Hr0 : r0 = r) by (unfold r; lia).
  assert (Hq : 2 ^ 52 <= q < 2 ^ 53).
  { assert (2 ^ 104 <= Z.pos m * 2 ^ s < 2 ^ 106).
    { destruct Hs as [-> | ->]; lia. }
    split.
    - apply Z.sqrt_le_square; [lia|lia|]. change (2 ^ 52 * 2 ^ 52) with (2 ^ 104). lia.
    - apply Z.sqrt_lt_square; [lia|lia|]. change (2 ^ 53 * 2 ^ 53) with (2 ^ 106). lia. }
  assert (Hq1 : q < r -> q + 1 < 2 ^ 53).
  { intros Hlt. destruct (Z.eq_dec q (2 ^ 53 - 1)) as [Eq|]; [|lia]. exfalso.
    destruct Hs as [Es | Es]; rewrite Es in *.
    - assert (Z.pos m * 2 ^ 52 < 2 ^ 105) by lia.
      assert (2 ^ 105 < q * q) by (rewrite Eq; reflexivity). lia.
    - assert (Z.pos m * 2 ^ 53 <= (2 ^ 53 - 1) * 2 ^ 53) by lia.
      rewrite Eq in *. lia. }
  set (l := if r =? 0 then loc_Exact
            else loc_Inexact (if r <=? q then Lt else Gt)).
  assert (Hcore : SFsqrt_core_binary 53 1024 (Z.pos m) e = (q, e', l)).
  { unfold SFsqrt_core_binary, fexp, emin. simpl Zdigits2. rewrite Hd.
    rewrite !Z.div2_div.
    assert (Ee : Z.min (Z.max ((53 + e + 1) / 2 - 53) (3 - 1024 - 53)) (e / 2) = e').
    { unfold e'. replace (53 + e + 1) with (e + 54) by lia.
      pose proof (Z.div_mod (e + 54) 2 ltac:(lia)).
      pose proof (Z.mod_pos_bound (e + 54) 2 ltac:(lia)).
      pose proof (Z.div_mod e 2 ltac:(lia)).
      pose proof (Z.mod_pos_bound e 2 ltac:(lia)). lia. }
    rewrite Ee. fold s.
    assert (Esh : match s with Z0 => Z.pos m | Z.pos _ => Z.shiftl (Z.pos m) s | Z.neg _ => 0 end
                  = Z.pos m * 2 ^ s).
    { rewrite <- Z.shiftl_mul_pow2 by lia. destruct s; try lia; reflexivity. }
    rewrite Esh, Esq. rewrite Hr0. reflexivity. }
  assert (Hround : exists mq : positive,
             round_nearest_even q l = Z.pos mq /\
             (Z.pos mq = q \/ (Z.pos mq = q + 1 /\ q < r)) /\
             (r = 0 -> Z.pos mq = q)).
  { unfold l. destruct (r =? 0) eqn:E0.
    - exists (Z.to_pos q). simpl. rewrite Z2Pos.id by lia. auto.
    - destruct (r <=? q) eqn:E1.
      + exists (Z.to_pos q). simpl. rewrite Z2Pos.id by lia. split; [reflexivity|].
        split; [auto | lia].
      + exists (Z.to_pos (q + 1)). simpl. rewrite Z2Pos.id by lia.
        split; [reflexivity|]. split; [right; lia | lia]. }
  destruct Hround as (mq & Hmq & Hcases & Hexact).
  exists mq. split; [|repeat split; auto; lia].
  unfold SFsqrt. rewrite Hcore.
  destruct q as [|qp|qp] eqn:Eqp; try lia.
  apply binary_round_aux_normal; auto.
  - apply digits2_pos_unique. simpl (53 - 1). lia.
  - apply digits2_pos_unique. simpl (53 - 1). destruct Hcases as [->| [-> Hlt]]; [lia|].
    specialize (Hq1 Hlt). lia.
  - unfold e'. pose proof (Z.div_mod (e + 54) 2 ltac:(lia)).
    pose proof (Z.mod_pos_bound (e + 54) 2 ltac:(lia)). lia.
Qed.

(** Rounding up the quotient of a positive mantissa by a power of two. *)
Lemma ceil_div_unique a b g :
  0 < b -> (g - 1) * b < a <= g * b -> - ((- a) / b) = g.
Proof.
  intros Hb Hg.
  rewrite <- (Z.div_unique (- a) b (- g) (g * b - a)); lia.
Qed.

(** The arithmetic heart: a correctly rounded 53-bit square root of
    [n * 4 ^ k], divided by [2 ^ k] and rounded up, is the ceiling of the
    square root of [n] as long as that ceiling is at most [2 ^ (k - 1)]. *)
Lemma ceil_sqrt_scaled n B q r mq g :
  0 < B -> 0 < g <= B ->
  (g - 1) * (g - 1) < n <= g * g ->
  n * ((2 * B) * (2 * B)) = q * q + r ->
  0 <= q -> 0 <= r <= 2 * q ->
  (mq = q \/ (mq = q + 1 /\ q < r)) ->
  (g - 1) * (2 * B) < mq <= g * (2 * B).
Proof.
  intros HB Hg Hn Hval Hq Hr Hmq.
  set (A := 2 * B) in *.
  assert (HA : 0 < A) by (unfold A; lia).
  assert (Hup : q <= g * A).
  { destruct (Z.le_gt_cases q (g * A)) as [|Hc]; [assumption|exfalso].
    assert (g * A * (g * A) < q * q) by nia. nia. }
  assert (Hlo : (g - 1) * A < q).
  { destruct (Z.le_gt_cases q ((g - 1) * A)) as [Hc|]; [exfalso|assumption].
    assert (Hn' : (g - 1) * (g - 1) + 1 <= n) by lia.
    assert (((g - 1) * (g - 1) + 1) * (A * A) <= n * (A * A)) by nia.
    assert (q * q <= (g - 1) * A * ((g - 1) * A)) by nia.
    assert (A * A <= r) by nia.
    assert (A * A <= 2 * ((g - 1) * A)) by lia.
    assert (A <= 2 * (g - 1)) by nia.
    unfold A in *. lia. }
  split; [lia|].
  destruct Hmq as [-> | [-> Hlt]]; [assumption|].
  destruct (Z.eq_dec q (g * A)) as [Eq|]; [exfalso|lia].
  assert (g * g * (A * A) <= q * q) by (rewrite Eq; nia).
  assert (n * (A * A) <= g * g * (A * A)) by nia.
  lia.
Qed.

Lemma calculate_grid_size_below_2_52 n t :
  1 <= n < 2 ^ 52 ->
  exists g, calculate_grid_size n t = Return (g, g) /\
            0 < g /\ (g - 1) * (g - 1) < n <= g * g.
Proof.
  intros Hn. destruct n as [|p|p]; try lia.
  set (g := Z.sqrt (Z.pos p - 1) + 1).
  pose proof (Z.sqrt_spec (Z.pos p - 1) ltac:(lia)) as Hg. cbv zeta in Hg.
  pose proof (Z.sqrt_nonneg (Z.pos p - 1)) as Hg0.
  exists g. split; [|unfold g; lia].
  set (d := Z.pos (digits2_pos p)).
  pose proof (digits2_pos_bounds p) as Hb. fold d in Hb.
  assert (Hd0 : 0 < d) by (unfold d; lia).
  assert (Hd : d <= 52).
  { destruct (Z.le_gt_cases d 52); [assumption|].
    assert (2 ^ 52 <= 2 ^ (d - 1)) by (apply Z.pow_le_mono_r; lia). lia. }
  unfold calculate_grid_size, PyMath.sqrt.
  rewrite float_of_int_small by lia. fold d.
  set (mz := Z.to_pos (Z.pos p * 2 ^ (53 - d))).
  assert (Hmz : Z.pos mz = Z.pos p * 2 ^ (53 - d)).
  { unfold mz. rewrite Z2Pos.id; [reflexivity|].
    assert (0 < 2 ^ (53 - d)) by (apply Z.pow_pos_nonneg; lia). lia. }
  assert (Hdz : Z.pos (digits2_pos mz) = 53).
  { apply digits2_pos_unique. rewrite Hmz. simpl (53 - 1).
    assert (2 ^ 52 = 2 ^ (d - 1) * 2 ^ (53 - d)).
    { rewrite <- Z.pow_add_r by lia. f_equal; lia. }
    assert (2 ^ 53 = 2 ^ d * 2 ^ (53 - d)).
    { rewrite <- Z.pow_add_r by lia. f_equal; lia. }
    assert (0 < 2 ^ (53 - d)) by (apply Z.pow_pos_nonneg; lia).
    nia. }
  destruct (SFsqrt_normal mz (d - 53) Hdz ltac:(lia))
    as (mq & Hsqrt & Hmq & _ & Hr & Hs).
  unfold PyMath.prec, PyMath.emax. rewrite Hsqrt.
  set (c := (d + 1) / 2).
  assert (Hc : 2 * c = d \/ 2 * c = d + 1).
  { unfold c. pose proof (Z.div_mod (d + 1) 2 ltac:(lia)).
    pose proof (Z.mod_pos_bound (d + 1) 2 ltac:(lia)). lia. }
  replace ((d - 53 + 54) / 2) with c in * by (unfold c; f_equal; lia).
  set (k := 53 - c).
  replace (d - 53 - 2 * (c - 53)) with (d - 53 + 2 * k) in * by (unfold k; lia).
  unfold PyMath.ceil. simpl cond_Zopp.
  destruct (0 <=? c - 53) eqn:E; [lia|].
  replace (- (c - 53)) with k by (unfold k; lia).
  set (B := 2 ^ (k - 1)).
  assert (HB : 0 < B) by (apply Z.pow_pos_nonneg; unfold k; lia).
  assert (HAB : 2 ^ k = 2 * B).
  { unfold B. rewrite <- Z.pow_succ_r by (unfold k; lia). f_equal; lia. }
  assert (Hval : Z.pos mz * 2 ^ (d - 53 + 2 * k) = Z.pos p * (2 * B * (2 * B))).
  { rewrite Hmz, <- HAB, <- Z.mul_assoc, <- !Z.pow_add_r by (unfold k; lia).
    f_equal. f_equal. lia. }
  rewrite Hval in *.
  set (q := Z.sqrt (Z.pos p * (2 * B * (2 * B)))) in *.
  assert (Hq0 : 0 <= q) by apply Z.sqrt_nonneg.
  assert (HgB : g <= B).
  { assert (Hgc : g <= 2 ^ c).
    { assert (Z.sqrt (Z.pos p - 1) < 2 ^ c); [|unfold g; lia].
      apply Z.sqrt_lt_square; [lia| apply Z.pow_nonneg; lia |].
      rewrite <- Z.pow_add_r by lia.
      assert (2 ^ d <= 2 ^ (c + c)) by (apply Z.pow_le_mono_r; lia). lia. }
    assert (2 ^ c <= B) by (apply Z.pow_le_mono_r; unfold k; lia). lia. }
  rewrite HAB.
  rewrite (ceil_div_unique (Z.pos mq) (2 * B) g); [reflexivity | lia |].
  apply (ceil_sqrt_scaled (Z.pos p) B q
           (Z.pos p * (2 * B * (2 * B)) - q * q) (Z.pos mq) g);
    try lia; unfold g; lia.
Qed.

Lemma calculate_grid_size_upto_2_52 n t :
  1 <= n <= 2 ^ 52 ->
  exists g, calculate_grid_size n t = Return (g, g) /\
            0 < g /\ (g - 1) * (g - 1) < n <= g * g.
Proof.
  intros Hn. destruct (Z.eq_dec n (2 ^ 52)) as [->|Hne].
  - exists (2 ^ 26). split; [vm_compute; reflexivity|]. lia.
  - apply calculate_grid_size_below_2_52. lia.
Qed.

(** ** Running the monad *)

Lemma bind_run {A B} (c : M A) (k : A -> M B) w :
  bind c k w = match c w with
               | (Return a, w') => k a w'
               | (Raise e, w') => (Raise e, w')
               end.
Proof. reflexivity. Qed.

Lemma for_fold_cons {A S} (x : A) l (body : S -> A -> M S) acc w :
  for_fold (x :: l) body acc w
  = match body acc x w with
    | (Return acc', w') => for_fold l body acc' w'
    | (Raise e, w') => (Raise e, w')
    end.
Proof. reflexivity. Qed.


Lemma for_each_app {A} (l1 l2 : list A) (body : A -> M unit) w :
  for_each (l1 ++ l2) body w
  = match for_each l1 body w with
    | (Return _, w') => for_each l2 body w'
    | (Raise e, w') => (Raise e, w')
    end.
Proof.
  revert w. induction l1 as [|x l1 IH]; intros w; simpl; [reflexivity|].
  unfold bind. destruct (body x w) as [[[]|e] w']; [apply IH | reflexivity].
Qed.

Lemma for_each_raise {A} (pre : list A) x post (body : A -> M unit) w w1 e w2 :
  for_each pre body w = (Return tt, w1) ->
  body x w1 = (Raise e, w2) ->
  for_each (pre ++ x :: post) body w = (Raise e, w2).
Proof.
  intros Hpre Hx. rewrite for_each_app, Hpre. simpl.
  rewrite bind_run, Hx. reflexivity.
Qed.

(** A condition that only reads the state filters like [List.filter]. *)
Lemma filter_if_reads {A} (p : A -> M bool) (g : world -> A -> bool) l w :
  (forall x w, p x w = (Return (g w x), w)) ->
  filter_if p l w = (Return (List.filter (g w) l), w).
Proof.
  intros Hp. induction l as [|x l IH]; simpl; [reflexivity|].
  unfold bind. rewrite Hp, IH. unfold ret. destruct (g w x); reflexivity.
Qed.

Lemma log_info m w : log INFO m w = (Return tt, add_logs w [(INFO, m)]).
Proof. reflexivity. Qed.
Lemma log_warning m w : log WARNING m w = (Return tt, add_logs w [(WARNING, m)]).
Proof. reflexivity. Qed.
Lemma log_error m w : log ERROR m w = (Return tt, add_logs w [(ERROR, m)]).
Proof. reflexivity. Qed.
Lemma log_debug m w : log DEBUG m w = (Return tt, w).
Proof. reflexivity. Qed.

Lemma print_run ln w : print ln w = (Return tt, add_lines w [ln]).
Proof. reflexivity. Qed.

Lemma isdir_run path w : isdir path w = (Return (is_dir w path), w).
Proof. reflexivity. Qed.

Lemma add_logs_add_logs w l1 l2 :
  add_logs (add_logs w l1) l2 = add_logs w (l1 ++ l2).
Proof. unfold add_logs; simpl. rewrite <- app_assoc. reflexivity. Qed.

Lemma add_logs_nil w : add_logs w [] = w.
Proof. destruct w; unfold add_logs; simpl. rewrite app_nil_r. reflexivity. Qed.

(** ** Strings and paths *)

Lemma append_cons x a b : String x a +:+ b = String x (a +:+ b).
Proof. reflexivity. Qed.

Lemma append_nil b : EmptyString +:+ b = b.
Proof. reflexivity. Qed.

Lemma string_length_app a b :
  String.length (a +:+ b) = (String.length a + String.length b)%nat.
Proof.
  induction a as [|x a IH]; [reflexivity|].
  rewrite append_cons. simpl. rewrite IH. reflexivity.
Qed.

Lemma endswith_cons x a suf :
  PyStr.endswith (String x a) suf
  = if String.eqb (String x a) suf then true else PyStr.endswith a suf.
Proof. reflexivity. Qed.

Lemma rfind_succ_none c s : has_char c s = false -> PyStr.rfind_succ c s = 0%nat.
Proof.
  induction s as [|a s IH]; simpl; [reflexivity|].
  intros H. apply orb_false_iff in H as [Ha Hs]. rewrite (IH Hs), Ha. reflexivity.
Qed.

Lemma rfind_succ_le c s : (PyStr.rfind_succ c s <= String.length s)%nat.
Proof.
  induction s as [|a s IH]; simpl; [lia|].
  destruct (PyStr.rfind_succ c s); [destruct (Ascii.eqb a c)|]; lia.
Qed.

Lemma rfind_succ_app c a b :
  has_char c b = false ->
  PyStr.rfind_succ c (a +:+ b) = PyStr.rfind_succ c a.
Proof.
  intros Hb. induction a as [|x a IH].
  - rewrite append_nil. apply rfind_succ_none, Hb.
  - rewrite append_cons. simpl. rewrite IH. reflexivity.
Qed.

Lemma endswith_sep_rfind c a :
  PyStr.endswith a (String c EmptyString) = true ->
  PyStr.rfind_succ c a = String.length a.
Proof.
  induction a as [|x a IH]; [discriminate|].
  change (PyStr.endswith (String x a) (String c EmptyString))
    with (if String.eqb (String x a) (String c EmptyString) then true
          else PyStr.endswith a (String c EmptyString)).
  destruct (String.eqb (String x a) (String c EmptyString)) eqn:E.
  - apply String.eqb_eq in E. injection E as -> ->. intros _. simpl.
    rewrite Ascii.eqb_refl. reflexivity.
  - intros H. specialize (IH H). simpl. rewrite IH.
    destruct a as [|y a]; [discriminate|]. reflexivity.
Qed.

Lemma substring_all s : String.substring 0 (String.length s) s = s.
Proof. induction s as [|a s IH]; simpl; [reflexivity | rewrite IH; reflexivity]. Qed.

Lemma substring_app_r a b n :
  String.substring (String.length a) n (a +:+ b) = String.substring 0 n b.
Proof.
  induction a as [|x a IH]; [reflexivity|]. rewrite append_cons. exact IH.
Qed.

Lemma substring_app_l a b :
  String.substring 0 (String.length a) (a +:+ b) = a.
Proof.
  induction a as [|x a IH]; [destruct b; reflexivity|].
  rewrite append_cons. simpl. rewrite IH. reflexivity.
Qed.

Lemma basename_app a b :
  has_char PosixPath.sep b = false ->
  PyStr.rfind_succ PosixPath.sep a = String.length a ->
  PosixPath.basename (a +:+ b) = b.
Proof.
  intros Hb Ha. unfold PosixPath.basename.
  rewrite rfind_succ_app, Ha, string_length_app by assumption.
  replace (String.length a + String.length b - String.length a)%nat
    with (String.length b) by lia.
  rewrite substring_app_r. apply substring_all.
Qed.

Lemma app_assoc_sep a c b : (a +:+ String c EmptyString) +:+ b = a +:+ String c b.
Proof.
  induction a as [|x a IH]; [reflexivity|].
  rewrite !append_cons. f_equal. exact IH.
Qed.

(** The last component of [os.path.join(a, b)] is [b] when [b] is a plain
    name. *)
Lemma basename_join a b :
  has_char PosixPath.sep b = false ->
  PosixPath.basename (PosixPath.join a b) = b.
Proof.
  intros Hb. unfold PosixPath.join.
  assert (Hs : PyStr.startswith b (String PosixPath.sep EmptyString) = false).
  { unfold PyStr.startswith. destruct b as [|x b]; [reflexivity|].
    simpl in Hb. apply orb_false_iff in Hb as [Hx _].
    destruct (String.prefix _ _) eqn:Ep; [|reflexivity].
    apply String.prefix_correct in Ep. simpl in Ep.
    injection Ep as -> _. rewrite Ascii.eqb_refl in Hx. discriminate. }
  rewrite Hs.
  destruct (String.eqb a EmptyString) eqn:Ea; simpl.
  - apply String.eqb_eq in Ea as ->. apply basename_app; [assumption | reflexivity].
  - destruct (PyStr.endswith a (String PosixPath.sep EmptyString)) eqn:Ee.
    + apply basename_app; [assumption | apply endswith_sep_rfind, Ee].
    + rewrite <- app_assoc_sep. apply basename_app; [assumption|].
      apply endswith_sep_rfind. clear. induction a as [|x a IH]; [reflexivity|].
      change (PyStr.endswith (String x a +:+ String PosixPath.sep EmptyString)
                (String PosixPath.sep EmptyString))
        with (if String.eqb (String x (a +:+ String PosixPath.sep EmptyString))
                   (String PosixPath.sep EmptyString) then true
              else PyStr.endswith (a +:+ String PosixPath.sep EmptyString)
                     (String PosixPath.sep EmptyString)).
      rewrite IH. destruct (String.eqb _ _); reflexivity.
Qed.

(** Appending a separator to a path that does not end with one: stripping
    the separators gives the path back, and not every character is a
    separator. *)
Lemma rstrip_app_sep c a :
  a <> EmptyString ->
  PyStr.endswith a (String c EmptyString) = false ->
  PyStr.rstrip c (a +:+ String c EmptyString) = a /\
  PyStr.all_char c (a +:+ String c EmptyString) = false.
Proof.
  induction a as [|x a IH]; [congruence|]. intros _ He.
  rewrite endswith_cons in He.
  destruct (String.eqb (String x a) (String c EmptyString)) eqn:E; [discriminate|].
  rewrite append_cons. simpl.
  destruct a as [|y a].
  - rewrite append_nil. simpl. rewrite Ascii.eqb_refl.
    destruct (Ascii.eqb x c) eqn:Ex.
    + apply Ascii.eqb_eq in Ex. subst x. rewrite String.eqb_refl in E. discriminate.
    + split; reflexivity.
  - destruct (IH ltac:(congruence) He) as [Hr Ha]. rewrite Hr, Ha.
    split; [reflexivity | apply andb_false_r].
Qed.

(** For a directory path [d] that is not empty and does not end with a
    separator, and a plain name: the directory of [os.path.join(d, name)]
    is [d]. *)
Lemma dirname_join d name :
  d <> EmptyString ->
  PyStr.endswith d (String PosixPath.sep EmptyString) = false ->
  has_char PosixPath.sep name = false ->
  PosixPath.dirname (PosixPath.join d name) = d.
Proof.
  intros Hd He Hn. unfold PosixPath.join.
  assert (Hs : PyStr.startswith name (String PosixPath.sep EmptyString) = false).
  { unfold PyStr.startswith. destruct name as [|x b]; [reflexivity|].
    simpl in Hn. apply orb_false_iff in Hn as [Hx _].
    destruct (String.prefix _ _) eqn:Ep; [|reflexivity].
    apply String.prefix_correct in Ep. simpl in Ep.
    injection Ep as -> _. rewrite Ascii.eqb_refl in Hx. discriminate. }
  rewrite Hs, He.
  destruct (String.eqb d EmptyString) eqn:Ed;
    [apply String.eqb_eq in Ed; congruence|]. simpl orb. cbv iota.
  unfold PosixPath.dirname. rewrite <- app_assoc_sep.
  assert (Hr : PyStr.rfind_succ PosixPath.sep (d +:+ String PosixPath.sep EmptyString)
               = String.length (d +:+ String PosixPath.sep EmptyString)).
  { apply endswith_sep_rfind. clear. induction d as [|x a IH]; [reflexivity|].
    rewrite append_cons, endswith_cons, IH. destruct (String.eqb _ _); reflexivity. }
  rewrite rfind_succ_app, Hr, substring_app_l by assumption.
  destruct (rstrip_app_sep PosixPath.sep d Hd He) as [Hstrip Hall].
  rewrite Hall, Hstrip.
  destruct (String.eqb (d +:+ String PosixPath.sep EmptyString) EmptyString) eqn:E.
  - apply String.eqb_eq in E. destruct d; discriminate.
  - reflexivity.
Qed.

(** ** The scanner *)

Lemma scan_loop cfg directory names acc w :
  for_fold names
    (fun image_files file =>
       if PyStr.startswith (PyStr.lower file) "collage_" then
         log DEBUG (Skipping_existing_collage file) ;;; ret image_files
       else if existsb (fun fmt => PyStr.endswith (PyStr.lower file) fmt)
                 (scan_formats cfg) then
         log DEBUG (Found_image (PosixPath.join directory file)) ;;;
         ret (image_files ++ [PosixPath.join directory file])
       else ret image_files) acc w
  = (Return (acc ++ (PosixPath.join directory <$>
                       List.filter (keep_file (scan_formats cfg)) names)), w).
Proof.
  revert acc. induction names as [|file names IH]; intros acc; simpl.
  - rewrite app_nil_r. reflexivity.
  - unfold bind at 1. unfold keep_file at 1.
    destruct (PyStr.startswith (PyStr.lower file) "collage_"); simpl.
    + apply IH.
    + destruct (existsb _ _); simpl.
      * rewrite IH, <- app_assoc. reflexivity.
      * apply IH.
Qed.

Lemma get_image_files_run cfg directory w names :
  dirs w !! directory = Some names ->
  get_image_files cfg directory w
  = (Return (sorted (scanned cfg w directory names)),
     add_logs w [(INFO, Scanning_directory directory);
                 (INFO, Supported_formats (scan_formats cfg));
                 (INFO, Found_images (len (scanned cfg w directory names)))]).
Proof.
  intros Hd. unfold get_image_files. fold (scan_formats cfg).
  rewrite bind_run, log_info, bind_run, log_info, bind_run.
  unfold listdir at 1. simpl dirs. rewrite Hd.
  rewrite bind_run.
  rewrite (filter_if_reads _ (fun w f => is_file w (PosixPath.join directory f)))
    by reflexivity.
  rewrite bind_run, scan_loop. simpl app.
  rewrite bind_run, log_info. unfold ret. rewrite !add_logs_add_logs. 
  reflexivity.
Qed.

Lemma sorted_nil : sorted [] = [].
Proof. reflexivity. Qed.

Lemma scanned_spec cfg w directory names path :
  path ∈ scanned cfg w directory names <->
  exists name, name ∈ names /\ path = PosixPath.join directory name /\
               is_file w (PosixPath.join directory name) = true /\
               keep_file (scan_formats cfg) name = true.
Proof.
  unfold scanned. rewrite list_elem_of_fmap. split.
  - intros (name & -> & Hin). apply list_elem_of_In, filter_In in Hin as [Hin Hk].
    apply filter_In in Hin as [Hin Hf]. exists name.
    rewrite list_elem_of_In. auto.
  - intros (name & Hin & -> & Hf & Hk). exists name. split; [reflexivity|].
    apply list_elem_of_In, filter_In. split; [|exact Hk].
    apply filter_In. split; [apply list_elem_of_In, Hin | exact Hf].
Qed.

(** The scanner as a whole: it returns, sorted, the paths of the regular
    files of the directory that pass the test of [keep_file]. *)
Lemma get_image_files_characterised cfg directory w names :
  dirs w !! directory = Some names ->
  exists result w',
    get_image_files cfg directory w = (Return result, w') /\
    Sorted String.le result /\
    result ≡ₚ scanned cfg w directory names /\
    (forall path, path ∈ result <->
       exists name, name ∈ names /\ path = PosixPath.join directory name /\
                    is_file w (PosixPath.join directory name) = true /\
                    keep_file (scan_formats cfg) name = true) /\
    files w' = files w /\ dirs w' = dirs w.
Proof.
  intros Hd. rewrite (get_image_files_run cfg directory w names Hd).
  eexists _, _. split; [reflexivity|].
  split; [apply (Sorted_merge_sort String.le)|].
  split; [apply (merge_sort_Permutation String.le)|].
  split; [|split; reflexivity].
  intros path. unfold sorted. rewrite (merge_sort_Permutation String.le).
  apply scanned_spec.
Qed.


(** ** Pasting *)












(** ** One chunk *)

Section Compose.

Variable jpeg : Z -> raster -> raster.
Variable cfg : config.

Lemma paste_image_placed ts cols collage entry w img box :
  placement (files w) ts cols entry = Some (img, box) ->
  paste_image cfg ts cols collage entry w
  = (Return (Image.paste collage img box), w).
Proof.
  destruct entry as [idx path]. unfold placement, load_image, paste_image. simpl.
  unfold try_except, bind, lift, floordiv, pymod, Image.open, Image.convert_RGB.
  destruct (cols =? 0); [discriminate|].
  destruct (files w !! path) as [[|i|c]|]; try discriminate.
  destruct (im_load i) as [px|]; [|discriminate].
  intros [= <- <-]. reflexivity.
Qed.

Lemma paste_image_failed ts cols collage entry w :
  placement (files w) ts cols entry = None ->
  paste_image cfg ts cols collage entry w
  = (if skip_errors cfg then Return collage
     else Raise (paste_error w cols (snd entry)),
     add_logs w [(ERROR, Error_processing (snd entry)
                           (paste_error w cols (snd entry)))]).
Proof.
  destruct entry as [idx path].
  unfold placement, load_image, paste_image, paste_error. simpl.
  unfold try_except, bind, lift, floordiv, pymod, Image.open, Image.convert_RGB.
  destruct (cols =? 0).
  { intros _. rewrite log_error. destruct (skip_errors cfg); reflexivity. }
  destruct (files w !! path) as [[|i|c]|].
  - intros _. rewrite log_error. destruct (skip_errors cfg); reflexivity.
  - destruct (im_load i) as [px|]; [discriminate|].
    intros _. unfold raise. rewrite log_error.
    destruct (skip_errors cfg); reflexivity.
  - intros _. rewrite log_error. destruct (skip_errors cfg); reflexivity.
  - intros _. rewrite log_error. destruct (skip_errors cfg); reflexivity.
Qed.




(** Without [skip_errors], an image that cannot be placed ends the loop
    over the chunk with an exception. *)
Lemma compose_raise ts cols entries canvas w :
  skip_errors cfg = false ->
  Exists (fun e => placement (files w) ts cols e = None) entries ->
  exists e records,
    for_fold entries (paste_image cfg ts cols) canvas w
    = (Raise e, add_logs w records).
Proof.
  intros Hskip Hex. revert canvas.
  induction entries as [|entry entries IH]; intros canvas; [inversion Hex|].
  simpl. rewrite bind_run.
  destruct (placement (files w) ts cols entry) as [[img box]|] eqn:Ep.
  - rewrite (paste_image_placed _ _ _ _ _ _ _ Ep).
    apply IH. inversion Hex; subst; [congruence | assumption].
  - rewrite (paste_image_failed ts cols canvas entry w Ep), Hskip. eauto.
Qed.


End Compose.

Section Collage.

Variable jpeg : Z -> raster -> raster.
Variable cfg : config.




Lemma files_written path f w : files (written path f w) = <[path := f]> (files w).
Proof. reflexivity. Qed.

Lemma new_white_run size w :
  0 <= fst size -> 0 <= snd size ->
  Image.new size white w = (Return (blank size), w).
Proof.
  intros H1 H2. unfold Image.new.
  destruct ((fst size <? 0) || (snd size <? 0)) eqn:E; [|reflexivity].
  apply orb_true_iff in E as [E|E]; lia.
Qed.

Lemma new_white_returns size w canvas w' :
  Image.new size white w = (Return canvas, w') ->
  canvas = blank size /\ w' = w.
Proof.
  unfold Image.new. destruct (_ || _); [discriminate|].
  intros [= <- <-]. split; reflexivity.
Qed.






Lemma make_collage_raise image_files t ts ipc odir paths k i w rows cols :
  let chunk_files := slice image_files i (i + ipc) in
  calculate_grid_size (len chunk_files) t = Return (rows, cols) ->
  0 <= cols * fst ts -> 0 <= rows * snd ts ->
  skip_errors cfg = false ->
  Exists (fun e => placement (files w) ts cols e = None)
         (enumerate chunk_files) ->
  exists e records,
    make_collage jpeg cfg image_files t ts ipc odir paths (k, i) w
    = (Raise e, add_logs w records).
Proof.
  intros chunk_files Hgrid Hc Hr Hskip Hex.
  unfold make_collage. fold chunk_files.
  rewrite bind_run. unfold lift at 1. rewrite Hgrid. cbv beta iota.
  rewrite bind_run, new_white_run by assumption.
  destruct (compose_raise cfg ts cols (enumerate chunk_files)
              (blank (cols * fst ts, rows * snd ts)) w Hskip Hex)
    as (e & records & Hrun).
  exists e, records. rewrite bind_run, Hrun. reflexivity.
Qed.



End Collage.

(** ** The chunks of a list *)









(** ** More on strings *)

Lemma has_char_app c a b :
  has_char c (a +:+ b) = has_char c a || has_char c b.
Proof.
  induction a as [|x a IH]; [reflexivity|].
  rewrite append_cons. simpl. rewrite IH, orb_assoc. reflexivity.
Qed.

Lemma lower_app a b : PyStr.lower (a +:+ b) = PyStr.lower a +:+ PyStr.lower b.
Proof.
  induction a as [|x a IH]; [reflexivity|].
  rewrite append_cons. simpl. rewrite IH. reflexivity.
Qed.

Lemma endswith_empty s : PyStr.endswith s EmptyString = true.
Proof.
  induction s as [|x s IH]; [reflexivity|].
  rewrite endswith_cons, IH. destruct (String.eqb _ _); reflexivity.
Qed.

(** A suffix of [s] only has characters of [s]. *)
Lemma endswith_has_char s suf c :
  PyStr.endswith s suf = true -> has_char c suf = true -> has_char c s = true.
Proof.
  induction s as [|x s IH].
  - destruct suf; [discriminate | discriminate].
  - rewrite endswith_cons.
    destruct (String.eqb (String x s) suf) eqn:E.
    + apply String.eqb_eq in E. subst suf. auto.
    + intros He Hc. simpl. rewrite (IH He Hc). apply orb_true_r.
Qed.

Lemma lower_ascii_not_upper c : is_upper (PyStr.lower_ascii c) = false.
Proof.
  destruct c as [[] [] [] [] [] [] [] []]; vm_compute; reflexivity.
Qed.

Lemma lower_no_char s c : is_upper c = true -> has_char c (PyStr.lower s) = false.
Proof.
  intros Hc. induction s as [|x s IH]; [reflexivity|].
  simpl. rewrite IH, orb_false_r.
  destruct (Ascii.eqb (PyStr.lower_ascii x) c) eqn:E; [|reflexivity].
  apply Ascii.eqb_eq in E. subst c. rewrite lower_ascii_not_upper in Hc. discriminate.
Qed.

Lemma pretty_N_go_has_char c x s :
  (forall d, pretty_N_char d <> c) ->
  has_char c (pretty_N_go x s) = has_char c s.
Proof.
  intros Hc. revert s. induction (N.lt_wf_0 x) as [x _ IH]; intros s.
  destruct (N.eq_dec x 0%N) as [->|Hx]; [reflexivity|].
  rewrite pretty_N_go_step by lia.
  rewrite IH by (apply N.div_lt; lia). simpl.
  destruct (Ascii.eqb _ c) eqn:E; [|reflexivity].
  apply Ascii.eqb_eq in E. destruct (Hc _ E).
Qed.

Lemma digit_not_sep d : pretty_N_char d <> PosixPath.sep.
Proof. unfold pretty_N_char. repeat case_match; discriminate. Qed.

Lemma str_of_int_plain n : has_char PosixPath.sep (PyStr.str_of_int n) = false.
Proof.
  unfold PyStr.str_of_int, pretty, pretty_Z.
  destruct n as [|p|p]; [reflexivity| |].
  - unfold pretty, pretty_positive, pretty, pretty_N.
    destruct (decide _); [reflexivity|].
    apply pretty_N_go_has_char, digit_not_sep.
  - rewrite has_char_app. simpl.
    unfold pretty, pretty_positive, pretty, pretty_N.
    destruct (decide _); [reflexivity|].
    apply pretty_N_go_has_char, digit_not_sep.
Qed.

(** The name of a collage is a plain name that begins with [collage_]. *)
Lemma collage_name_plain k : has_char PosixPath.sep (collage_name k) = false.
Proof.
  unfold collage_name. rewrite !has_char_app, str_of_int_plain. reflexivity.
Qed.

Lemma collage_name_prefix k :
  PyStr.startswith (PyStr.lower (collage_name k)) "collage_" = true.
Proof.
  unfold collage_name. rewrite lower_app.
  unfold PyStr.startswith. simpl.
  repeat (destruct (ascii_dec _ _); [|congruence]).
  match goal with |- String.prefix _ ?x = true => destruct x; reflexivity end.
Qed.

Lemma keep_file_collage formats k : keep_file formats (collage_name k) = false.
Proof. unfold keep_file. rewrite collage_name_prefix. reflexivity. Qed.

Lemma basename_output_path output_dir k :
  PosixPath.basename (output_path output_dir k) = collage_name k.
Proof. apply basename_join, collage_name_plain. Qed.

(** ** Output paths and chunk canvases *)









(** ** The loop over the chunks and the driver *)

Section ChunkLoop.

Variable jpeg : Z -> raster -> raster.
Variable cfg : config.





End ChunkLoop.

Section CreateCollages.

Variable jpeg : Z -> raster -> raster.
Variable cfg : config.

Lemma compute_chunking_run tw t :
  tw <> 0 ->
  compute_chunking tw t
  = Return (Z.max 1 (clamp_target_size t / tw),
            Z.max 1 (Z.max 1 (clamp_target_size t / tw)
                     * Z.max 1 (clamp_target_size t / tw))).
Proof.
  intros Htw. unfold compute_chunking, floordiv.
  destruct (tw =? 0) eqn:E; [lia | reflexivity].
Qed.


End CreateCollages.

Section Driver.

Variable jpeg : Z -> raster -> raster.
Variable cfg : config.

(** An exception of [create_collages] leaves the loop body. *)
Lemma process_subdir_raises directory size subdir w image_files ws e w' :
  let thumbs_dir :=
    PosixPath.join (PosixPath.join directory subdir) "thumbs" in
  is_dir w thumbs_dir = true ->
  get_image_files cfg thumbs_dir (add_lines w [Processing_subdirectory subdir])
  = (Return image_files, ws) ->
  image_files <> [] ->
  create_collages jpeg cfg image_files size
    (add_lines ws [Found_in_subdir (len image_files) subdir])
  = (Raise e, w') ->
  process_subdir jpeg cfg directory size subdir w = (Raise e, w').
Proof.
  intros thumbs_dir Hdir Hscan Hne Hraise.
  unfold process_subdir. fold thumbs_dir.
  rewrite bind_run, print_run, bind_run, isdir_run.
  change (is_dir (add_lines w [Processing_subdirectory subdir]) thumbs_dir)
    with (is_dir w thumbs_dir).
  rewrite Hdir. change (negb true) with false. cbv iota.
  rewrite bind_run, Hscan.
  destruct image_files as [|f fs]; [congruence|].
  rewrite bind_run, print_run, bind_run, Hraise. reflexivity.
Qed.

End Driver.

(** ** The scanner: extensions and empty results *)

(** C1: an extension written in capitals in [supported_formats] matches no
    file at all, whatever the case of the file name: only the file name is
    lowered before the comparison, the configured extension is not. In a
    directory that holds [a.JPG] and [b.jpg], the format list [.JPG] yields
    the empty list, although a case-insensitive match would return both
    files, as the format list [.jpg] does. *)
Theorem get_image_files_uppercase_format :
  fst (get_image_files upper_config "pics" mixed_case_dir) = Return [] /\
  fst (get_image_files lower_config "pics" mixed_case_dir)
  = Return ["pics/a.JPG"; "pics/b.jpg"].
Proof. split; vm_compute; reflexivity. Qed.

(** C9: scanning an existing directory in which no regular file passes the
    two tests returns the empty list without raising and leaves the file
    system as it was; [create_collages] on the empty list logs one error
    record and returns the empty list, without raising and without
    touching the file system. *)
Theorem empty_results_are_not_faults :
  (forall cfg directory w names,
      dirs w !! directory = Some names ->
      (forall name, name ∈ names ->
                    is_file w (PosixPath.join directory name) = true ->
                    keep_file (scan_formats cfg) name = false) ->
      exists w', get_image_files cfg directory w = (Return [], w') /\
                 files w' = files w /\ dirs w' = dirs w) /\
  (forall jpeg cfg target_size w,
      exists w', create_collages jpeg cfg [] target_size w = (Return [], w') /\
                 files w' = files w /\ dirs w' = dirs w /\
                 logged w' = logged w ++ [(ERROR, No_image_files_found)]).
Proof.
  split.
  - intros cfg directory w names Hd Hnone.
    rewrite (get_image_files_run cfg directory w names Hd).
    assert (Hs : scanned cfg w directory names = []).
    { destruct (scanned cfg w directory names) as [|path l] eqn:E; [reflexivity|].
      assert (Hin : path ∈ scanned cfg w directory names)
        by (rewrite E; apply list_elem_of_here).
      apply scanned_spec in Hin as (name & Hin & _ & Hf & Hk).
      rewrite (Hnone name Hin Hf) in Hk. discriminate. }
    rewrite Hs. eexists. split; [reflexivity|]. split; reflexivity.
  - intros jpeg cfg t w. eexists. split; [reflexivity|]. repeat split.
Qed.

Lemma empty_results_are_not_faults_witness :
  exists w', get_image_files default_config "empty" no_images = (Return [], w') /\
             files w' = files no_images /\ dirs w' = dirs no_images.
Proof.
  apply (proj1 empty_results_are_not_faults default_config "empty" no_images
           ["notes.txt"; "collage_1.jpg"; "sub"]).
  - vm_compute. reflexivity.
  - intros name Hin _.
    repeat (apply elem_of_cons in Hin as [-> | Hin]; [vm_compute; reflexivity|]).
    inversion Hin.
Defined.

(** ** The planner *)

(** C3: a target size below 100 is replaced by 2000; then, for a thumbnail
    width other than zero, [images_per_row] is the larger of 1 and the
    floor [q] of the quotient of the target size by the width, and
    [images_per_collage] is the larger of 1 and the square of
    [images_per_row]. In particular a width of 500 with a target of 50
    gives (4, 16) and a width of 2500 with a target of 2000 gives (1, 1). *)
Theorem compute_chunking_spec :
  (forall thumbWidth targetSize,
      thumbWidth <> 0 ->
      let t := if targetSize <? 100 then 2000 else targetSize in
      exists q,
        (0 < thumbWidth -> thumbWidth * q <= t < thumbWidth * (q + 1)) /\
        (thumbWidth < 0 -> thumbWidth * (q + 1) < t <= thumbWidth * q) /\
        compute_chunking thumbWidth targetSize
        = Return (Z.max 1 q, Z.max 1 (Z.max 1 q * Z.max 1 q))) /\
  compute_chunking 500 50 = Return (4, 16) /\
  compute_chunking 2500 2000 = Return (1, 1).
Proof.
  split; [|split; reflexivity].
  intros w t Hw. cbv zeta. exists (clamp_target_size t / w).
  rewrite compute_chunking_run by lia. unfold clamp_target_size.
  pose proof (Z.div_mod (if t <? 100 then 2000 else t) w Hw) as Hdm.
  split; [|split; [|reflexivity]]; intros Hs.
  - pose proof (Z.mod_pos_bound (if t <? 100 then 2000 else t) w Hs). lia.
  - pose proof (Z.mod_neg_bound (if t <? 100 then 2000 else t) w Hs). lia.
Qed.

Lemma compute_chunking_spec_witness :
  exists q, (0 < 400 -> 400 * q <= 1000 < 400 * (q + 1)) /\
            (400 < 0 -> 400 * (q + 1) < 1000 <= 400 * q) /\
            compute_chunking 400 1000
            = Return (Z.max 1 q, Z.max 1 (Z.max 1 q * Z.max 1 q)).
Proof. apply (proj1 compute_chunking_spec 400 1000). lia. Defined.

(** C4, amended: for every image count [n] from 1 to 2^52,
    [calculate_grid_size] returns the square grid whose side [g] is the
    ceiling of the square root of [n], that is [(g-1)^2 < n <= g^2]; for
    [n] in 1, 4, 5, 9, 10 the side is 1, 2, 3, 3, 4. The count alone
    decides the grid, so a trailing chunk with fewer images than cells gets
    the same grid. *)
Theorem calculate_grid_size_ceil_sqrt :
  (forall n target_size,
      1 <= n <= 2 ^ 52 ->
      exists g, calculate_grid_size n target_size = Return (g, g) /\
                0 < g /\ (g - 1) * (g - 1) < n <= g * g) /\
  (forall target_size,
      calculate_grid_size 1 target_size = Return (1, 1) /\
      calculate_grid_size 4 target_size = Return (2, 2) /\
      calculate_grid_size 5 target_size = Return (3, 3) /\
      calculate_grid_size 9 target_size = Return (3, 3) /\
      calculate_grid_size 10 target_size = Return (4, 4)).
Proof.
  split; [exact calculate_grid_size_upto_2_52|].
  intros t. repeat split; vm_compute; reflexivity.
Qed.

Lemma calculate_grid_size_ceil_sqrt_witness :
  exists g, calculate_grid_size 7 2000 = Return (g, g) /\
            0 < g /\ (g - 1) * (g - 1) < 7 <= g * g.
Proof. apply (proj1 calculate_grid_size_ceil_sqrt 7 2000). lia. Defined.

(** C4 as stated fails beyond 2^52: for [n = 2^52 + 1] the double nearest
    to the square root of [n] is [2^26], so the grid side is [2^26], whose
    square is below [n]. *)
Lemma calculate_grid_size_rounds_down :
  calculate_grid_size (2 ^ 52 + 1) 2000 = Return (2 ^ 26, 2 ^ 26) /\
  2 ^ 26 * 2 ^ 26 < 2 ^ 52 + 1.
Proof. split; [vm_compute; reflexivity | lia]. Qed.

(** C10: the grid does not depend on the target size. *)
Theorem calculate_grid_size_ignores_target_size :
  forall n t1 t2, calculate_grid_size n t1 = calculate_grid_size n t2.
Proof. reflexivity. Qed.

(** ** The composer *)











(** ** The driver *)

(** C2, amended: in a run over subdirectories (no root [thumbs]
    directory), an exception that leaves [create_collages] for one
    subdirectory also leaves [main]: the run ends with that exception in
    the state in which it was raised, so the subdirectories after it are
    not processed; what the subdirectories before it produced stays. *)
Theorem main_stops_at_first_error :
  forall jpeg cfg directory size w names pre subdir post w1 image_files ws e w2,
    let thumbs_dir :=
      PosixPath.join (PosixPath.join directory subdir) "thumbs" in
    dirs w !! PosixPath.join directory "thumbs" = None ->
    dirs w !! directory = Some names ->
    List.filter (fun d => is_dir w (PosixPath.join directory d)) names
    = pre ++ subdir :: post ->
    for_each pre (process_subdir jpeg cfg directory size) w = (Return tt, w1) ->
    is_dir w1 thumbs_dir = true ->
    get_image_files cfg thumbs_dir
      (add_lines w1 [Processing_subdirectory subdir])
    = (Return image_files, ws) ->
    image_files <> [] ->
    create_collages jpeg cfg image_files size
      (add_lines ws [Found_in_subdir (len image_files) subdir])
    = (Raise e, w2) ->
    main jpeg cfg directory size w = (Raise e, w2).
Proof.
  intros jpeg cfg directory size w names pre subdir post w1 image_files ws e w2
         thumbs_dir Hroot Hnames Hsub Hpre Hdir Hscan Hne Hraise.
  unfold main. rewrite bind_run, isdir_run. unfold is_dir at 1. rewrite Hroot.
  rewrite bool_decide_eq_false_2 by (intros [? ?]; discriminate).
  rewrite bind_run. unfold listdir at 1. rewrite Hnames.
  rewrite bind_run.
  rewrite (filter_if_reads _ (fun w d => is_dir w (PosixPath.join directory d)))
    by reflexivity.
  rewrite Hsub.
  destruct (pre ++ subdir :: post) as [|d l] eqn:E.
  { destruct pre; discriminate. }
  rewrite <- E.
  apply for_each_raise with (w1 := w1); [exact Hpre|].
  eapply process_subdir_raises; eauto.
Qed.

Lemma main_stops_at_first_error_witness :
  exists w2, main lossless strict_config "p" 1000 two_albums = (Raise OSError, w2).
Proof.
  eexists.
  apply (main_stops_at_first_error lossless strict_config "p" 1000 two_albums
           ["a"; "b"] [] "a" ["b"] two_albums
           ["p/a/thumbs/x.jpg"; "p/a/thumbs/y.jpg"]
           (snd (get_image_files strict_config "p/a/thumbs"
                   (add_lines two_albums [Processing_subdirectory "a"])))).
  - vm_compute. reflexivity.
  - vm_compute. reflexivity.
  - vm_compute. reflexivity.
  - reflexivity.
  - vm_compute. reflexivity.
  - vm_compute. reflexivity.
  - discriminate.
  - vm_compute. reflexivity.
Defined.

(** C2 as stated fails: with [skip_errors] off and a damaged image in
    [p/a/thumbs], [main] ends with the exception after subdirectory [a];
    subdirectory [b] is never visited and gets no collage, although its
    own pipeline succeeds when run. *)
Lemma main_skips_later_directories :
  fst (main lossless strict_config "p" 1000 two_albums) = Raise OSError /\
  printed (snd (main lossless strict_config "p" 1000 two_albums))
  = [Processing_subdirectory "a"; Found_in_subdir 2 "a"] /\
  files (snd (main lossless strict_config "p" 1000 two_albums))
    !! "p/b/thumbs/collage_1.jpg" = None /\
  fst (process_subdir lossless strict_config "p" 1000 "b" two_albums)
  = Return tt /\
  is_Some (files (snd (process_subdir lossless strict_config "p" 1000 "b"
                         two_albums))
             !! "p/b/thumbs/collage_1.jpg").
Proof.
  repeat split; try (vm_compute; reflexivity).
  vm_compute. eauto.
Qed.

(** * Further properties of the scanner, the composer and the driver *)

(** ** What a run leaves behind *)

Lemma collages_added_refl D w : collages_added D w w.
Proof.
  split; [auto|]. split; [|split; [reflexivity | auto]].
  intros d. destruct (dirs w !! d) as [names|] eqn:E; [|reflexivity].
  exists []. rewrite app_nil_r. auto.
Qed.

Lemma collages_added_trans D w1 w2 w3 :
  collages_added D w1 w2 -> collages_added D w2 w3 -> collages_added D w1 w3.
Proof.
  intros (F1 & D1 & P1 & K1) (F2 & D2 & P2 & K2).
  split; [|split; [|split; [congruence|]]].
  - intros p. destruct (F2 p) as [E2|Ho]; [|right; exact Ho].
    destruct (F1 p) as [E1|Ho]; [left; congruence | right; exact Ho].
  - intros d. specialize (D1 d). specialize (D2 d).
    destruct (dirs w1 !! d) as [names|].
    + destruct D1 as (e1 & E1 & He1). rewrite E1 in D2.
      destruct D2 as (e2 & E2 & He2).
      exists (e1 ++ e2). rewrite app_assoc. split; [exact E2|].
      apply Forall_app; auto.
    + rewrite D1 in D2. exact D2.
  - intros d0. destruct (K2 d0) as [E2|Ho]; [|right; exact Ho].
    destruct (K1 d0) as [E1|Ho]; [left; congruence | right; exact Ho].
Qed.

Lemma collages_added_logs D w records : collages_added D w (add_logs w records).
Proof. apply (collages_added_refl D w). Qed.

Lemma collages_added_written (D : string -> Prop) d k f w :
  D d ->
  collages_added D w (written (output_path d k) f w).
Proof.
  intros Hd. split; [|split; [|split; [reflexivity|]]].
  - intros p. simpl. destruct (decide (output_path d k = p)) as [<-|Hne].
    + right. eauto.
    + left. apply lookup_insert_ne, Hne.
  - intros d0. simpl. rewrite basename_output_path.
    destruct (decide (PosixPath.dirname (output_path d k) = d0)) as [<-|Hne].
    + rewrite lookup_alter_eq.
      destruct (dirs w !! PosixPath.dirname (output_path d k)) as [names|];
        [|reflexivity].
      simpl. destruct (bool_decide (collage_name k ∈ names)).
      * exists []. rewrite app_nil_r. auto.
      * exists [collage_name k]. split; [reflexivity|]. repeat constructor. eauto.
    + rewrite lookup_alter_ne by exact Hne.
      destruct (dirs w !! d0) as [names|]; [|reflexivity].
      exists []. rewrite app_nil_r. auto.
  - intros d0. simpl.
    destruct (decide (PosixPath.dirname (output_path d k) = d0)) as [<-|Hne].
    + right. eauto.
    + left. apply lookup_alter_ne, Hne.
Qed.

Lemma collages_added_mono (D D' : string -> Prop) w w' :
  (forall d, D d -> D' d) -> collages_added D w w' -> collages_added D' w w'.
Proof.
  intros HD (F & Dr & P & K). split; [|split; [|split]]; try assumption.
  - intros p. destruct (F p) as [E|(d & k & Hd & ->)]; [left; exact E|].
    right. exists d, k. auto.
  - intros d0. destruct (K d0) as [E|(d & k & Hd & ->)]; [left; exact E|].
    right. exists d, k. auto.
Qed.

Section Frame.

Variable jpeg : Z -> raster -> raster.
Variable cfg : config.

Lemma paste_image_world ts cols collage entry w :
  exists records,
    snd (paste_image cfg ts cols collage entry w) = add_logs w records.
Proof.
  destruct (placement (files w) ts cols entry) as [[img box]|] eqn:Ep.
  - rewrite (paste_image_placed cfg _ _ _ _ _ _ _ Ep). exists [].
    rewrite add_logs_nil. reflexivity.
  - rewrite (paste_image_failed cfg ts cols collage entry w Ep). eauto.
Qed.

Lemma compose_world ts cols entries canvas w :
  exists records,
    snd (for_fold entries (paste_image cfg ts cols) canvas w)
    = add_logs w records.
Proof.
  revert canvas w. induction entries as [|entry entries IH]; intros canvas w.
  - exists []. rewrite add_logs_nil. reflexivity.
  - rewrite for_fold_cons.
    destruct (paste_image_world ts cols canvas entry w) as [r1 H1].
    destruct (paste_image cfg ts cols canvas entry w) as [[canvas'|e] w1];
      simpl in H1; subst w1; [|eauto].
    destruct (IH canvas' (add_logs w r1)) as [r2 H2].
    exists (r1 ++ r2). rewrite H2, add_logs_add_logs. reflexivity.
Qed.

(** Whether it stores the collage or fails, [save] touches the output
    path only. *)
Lemma save_world (D : string -> Prop) collage d k quality w :
  D d ->
  collages_added D w (snd (save jpeg collage (output_path d k) quality w)).
Proof.
  intros Hd. unfold save. destruct (encodable (r_size collage)).
  - apply (collages_added_written D d k _ w Hd).
  - simpl. case_bool_decide; [|apply collages_added_refl].
    split; [|split; [|split; [reflexivity | auto]]].
    + intros p. simpl. destruct (decide (output_path d k = p)) as [<-|Hne].
      * right. eauto.
      * left. apply lookup_insert_ne, Hne.
    + intros d0. simpl. destruct (dirs w !! d0) as [names|]; [|reflexivity].
      exists []. rewrite app_nil_r. auto.
Qed.

(** Whatever its outcome, one turn of the loop over the chunks changes the
    file system at most by its own collage. *)
Lemma make_collage_world image_files t ts ipc odir paths entry w :
  collages_added (eq odir) w
    (snd (make_collage jpeg cfg image_files t ts ipc odir paths entry w)).
Proof.
  destruct entry as [k i]. unfold make_collage. rewrite bind_run.
  unfold lift at 1.
  destruct (calculate_grid_size _ _) as [[rows cols]|e];
    [|apply collages_added_refl].
  cbv beta iota. rewrite bind_run.
  destruct (Image.new _ white w) as [[canvas|e] w1] eqn:En.
  2:{ unfold Image.new in En. destruct (_ || _); inversion En.
      apply collages_added_refl. }
  apply new_white_returns in En as [-> ->].
  rewrite bind_run.
  destruct (compose_world ts cols
              (enumerate (slice image_files i (i + ipc)))
              (blank (cols * fst ts, rows * snd ts)) w)
    as [records Hw].
  destruct (for_fold _ _ (blank _) w) as [[collage|e] w2]; simpl in Hw; subst w2;
    [|apply collages_added_logs].
  rewrite bind_run.
  pose proof (save_world (eq odir) collage odir k (jpeg_quality cfg)
                (add_logs w records) eq_refl) as Hsave.
  fold (output_path odir k).
  destruct (save jpeg collage (output_path odir k) (jpeg_quality cfg)
              (add_logs w records)) as [[u|e] w3]; simpl in Hsave.
  - rewrite bind_run, log_info. unfold ret. simpl snd.
    eapply collages_added_trans; [apply collages_added_logs|].
    eapply collages_added_trans; [exact Hsave | apply collages_added_logs].
  - simpl snd.
    eapply collages_added_trans; [apply collages_added_logs | exact Hsave].
Qed.

Lemma chunk_loop_world image_files t ts ipc odir entries paths w :
  collages_added (eq odir) w
    (snd (for_fold entries (make_collage jpeg cfg image_files t ts ipc odir)
            paths w)).
Proof.
  revert paths w. induction entries as [|entry entries IH]; intros paths w.
  - apply collages_added_refl.
  - rewrite for_fold_cons.
    pose proof (make_collage_world image_files t ts ipc odir paths entry w) as H1.
    destruct (make_collage _ _ _ _ _ _ _ _ _ w) as [[paths'|e] w1]; simpl in H1;
      [|exact H1].
    eapply collages_added_trans; [exact H1 | apply IH].
Qed.

Lemma create_collages_world image_files t w :
  collages_added
    (fun d => exists first, head image_files = Some first /\
                            d = PosixPath.dirname first)
    w (snd (create_collages jpeg cfg image_files t w)).
Proof.
  destruct image_files as [|first rest]; [apply collages_added_logs|].
  unfold create_collages. rewrite bind_run, log_info, bind_run.
  set (w1 := add_logs w _).
  assert (Hwarn : exists r,
    (if t <? 100 then log WARNING (Target_size_too_small t) else ret tt) w1
    = (Return tt, add_logs w r)).
  { destruct (t <? 100).
    - rewrite log_warning. unfold w1. rewrite add_logs_add_logs. eauto.
    - unfold ret, w1. eauto. }
  destruct Hwarn as [r ->]. rewrite bind_run.
  unfold Image.open at 1. simpl files.
  destruct (files w !! first) as [[|sample|c]|]; try apply collages_added_logs.
  rewrite bind_run. unfold lift at 1.
  destruct (compute_chunking _ t) as [[ipr ipc]|e]; [|apply collages_added_logs].
  cbv beta iota.
  rewrite bind_run, log_info, bind_run, log_info, bind_run, log_info.
  rewrite !add_logs_add_logs.
  eapply collages_added_trans; [apply collages_added_logs|].
  eapply collages_added_mono; [|apply chunk_loop_world].
  intros d <-. eauto.
Qed.

End Frame.

Lemma has_upper_char s : has_upper s = true -> exists c, is_upper c = true /\ has_char c s = true.
Proof.
  induction s as [|a s IH]; [discriminate|]. simpl.
  destruct (is_upper a) eqn:Ea.
  - intros _. exists a. rewrite Ascii.eqb_refl. auto.
  - simpl. intros H. destruct (IH H) as (c & Hc & Hs). exists c.
    rewrite Hs, orb_true_r. auto.
Qed.

(** An extension with a capital letter is never the end of a lowered
    name. *)
Lemma endswith_lower_upper file fmt :
  has_upper fmt = true -> PyStr.endswith (PyStr.lower file) fmt = false.
Proof.
  intros Hu. destruct (has_upper_char fmt Hu) as (c & Hc & Hf).
  destruct (PyStr.endswith (PyStr.lower file) fmt) eqn:E; [|reflexivity].
  pose proof (endswith_has_char _ _ c E Hf) as H.
  rewrite (lower_no_char file c Hc) in H. discriminate.
Qed.

Lemma split_trailing sep s :
  exists l, l <> [] /\
            PyStr.split sep (s +:+ String sep EmptyString) = l ++ [EmptyString].
Proof.
  induction s as [|a s IH].
  - exists [EmptyString]. split; [discriminate|].
    simpl. rewrite Ascii.eqb_refl. reflexivity.
  - destruct IH as (l & Hl & E). rewrite append_cons. simpl. rewrite E.
    destruct (Ascii.eqb a sep).
    + exists (EmptyString :: l). split; [discriminate | reflexivity].
    + destruct l as [|piece l]; [congruence|].
      exists (String a piece :: l). split; [discriminate | reflexivity].
Qed.

Lemma empty_format_keeps formats file :
  EmptyString ∈ formats ->
  keep_file formats file
  = negb (PyStr.startswith (PyStr.lower file) "collage_").
Proof.
  intros Hin. unfold keep_file.
  destruct (PyStr.startswith _ _); [reflexivity|]. simpl.
  apply existsb_exists. exists EmptyString.
  split; [apply list_elem_of_In, Hin | apply endswith_empty].
Qed.

(** X1: for an existing directory whose names are ASCII text, and an
    ASCII format list, [get_image_files] returns without raising. The list
    is sorted ascending and holds exactly the paths [join directory name]
    of the listed names that are regular files, do not start with
    [collage_] once lowered, and once lowered end with one of the
    extensions of [supported_formats] split at the commas. Files, listings
    and printed lines stay as they are, and exactly three INFO records are
    logged: the directory, the format list and the number of images
    found. *)
Theorem get_image_files_spec :
  forall cfg directory w names,
    dirs w !! directory = Some names ->
    Forall (fun name => is_ascii name = true) names ->
    is_ascii (supported_formats cfg) = true ->
    exists result w',
      get_image_files cfg directory w = (Return result, w') /\
      Sorted String.le result /\
      (forall path,
          path ∈ result <->
          exists name,
            name ∈ names /\ path = PosixPath.join directory name /\
            is_Some (files w !! PosixPath.join directory name) /\
            PyStr.startswith (PyStr.lower name) "collage_" = false /\
            exists fmt,
              fmt ∈ PyStr.split ","%char (supported_formats cfg) /\
              PyStr.endswith (PyStr.lower name) fmt = true) /\
      files w' = files w /\ dirs w' = dirs w /\ printed w' = printed w /\
      logged w'
      = logged w ++ [(INFO, Scanning_directory directory);
                     (INFO, Supported_formats
                              (PyStr.split ","%char (supported_formats cfg)));
                     (INFO, Found_images (len result))].
Proof.
  intros cfg directory w names Hd _ _.
  rewrite (get_image_files_run cfg directory w names Hd).
  eexists _, _. split; [reflexivity|].
  split; [apply (Sorted_merge_sort String.le)|].
  split.
  - intros path. unfold sorted. rewrite (merge_sort_Permutation String.le).
    rewrite scanned_spec. split.
    + intros (name & Hin & -> & Hf & Hk). exists name.
      split; [exact Hin|]. split; [reflexivity|].
      split; [unfold is_file in Hf; apply bool_decide_eq_true in Hf; exact Hf|].
      unfold keep_file in Hk.
      destruct (PyStr.startswith _ _); [discriminate|]. split; [reflexivity|].
      apply existsb_exists in Hk as (fmt & Hfmt & He). exists fmt.
      split; [apply list_elem_of_In, Hfmt | exact He].
    + intros (name & Hin & -> & Hf & Hs & fmt & Hfmt & He). exists name.
      split; [exact Hin|]. split; [reflexivity|].
      split; [unfold is_file; apply bool_decide_eq_true; exact Hf|].
      unfold keep_file. rewrite Hs. apply existsb_exists. exists fmt.
      split; [apply list_elem_of_In, Hfmt | exact He].
  - repeat split. simpl. unfold sorted, len.
    rewrite (Permutation_length (merge_sort_Permutation String.le _)).
    reflexivity.
Qed.

Lemma get_image_files_spec_witness :
  exists w',
    get_image_files default_config "pics/thumbs" five_thumbs
    = (Return five_paths, w') /\
    files w' = files five_thumbs /\ dirs w' = dirs five_thumbs.
Proof.
  destruct (get_image_files_spec default_config "pics/thumbs" five_thumbs
              ["3.png"; "1.JPG"; "collage_1.jpg"; "5.jpeg"; "2.jpg";
               "notes.txt"; "4.jpg"])
    as (result & w' & Hrun & _ & _ & Hf & Hd & _).
  - vm_compute. reflexivity.
  - repeat constructor.
  - reflexivity.
  - exists w'. split; [|split; assumption].
    rewrite Hrun. f_equal. f_equal.
    apply (f_equal fst) in Hrun. vm_compute in Hrun. injection Hrun as <-.
    reflexivity.
Defined.

(** X2: scanning a path that is no directory raises, whatever the
    configuration: [NotADirectoryError] when the path is a regular file,
    [FileNotFoundError] when nothing is there. The handler of
    [get_image_files] passes the exception on; files, listings and printed
    lines are unchanged. *)
Theorem get_image_files_missing_directory :
  forall cfg directory w,
    dirs w !! directory = None ->
    exists e w',
      get_image_files cfg directory w = (Raise e, w') /\
      e = (if bool_decide (is_Some (files w !! directory))
           then NotADirectoryError else FileNotFoundError) /\
      files w' = files w /\ dirs w' = dirs w /\ printed w' = printed w.
Proof.
  intros cfg directory w Hd. unfold get_image_files.
  rewrite bind_run, log_info, bind_run, log_info, bind_run.
  unfold listdir at 1. simpl dirs. rewrite Hd.
  eexists _, _. split; [reflexivity|]. repeat split.
Qed.

Lemma get_image_files_missing_directory_witness :
  fst (get_image_files default_config "nowhere" mixed_case_dir)
  = Raise FileNotFoundError /\
  fst (get_image_files default_config "pics/a.JPG" mixed_case_dir)
  = Raise NotADirectoryError.
Proof.
  split.
  - destruct (get_image_files_missing_directory default_config "nowhere"
                mixed_case_dir) as (e & w' & Hrun & He & _).
    + vm_compute. reflexivity.
    + rewrite Hrun, He. vm_compute. reflexivity.
  - destruct (get_image_files_missing_directory default_config "pics/a.JPG"
                mixed_case_dir) as (e & w' & Hrun & He & _).
    + vm_compute. reflexivity.
    + rewrite Hrun, He. vm_compute. reflexivity.
Defined.

(** X3: an empty extension matches every name. When [supported_formats]
    is empty or ends with a comma, every regular file of the directory
    whose lowered name does not start with [collage_] is returned,
    whatever its extension. *)
Theorem empty_extension_matches_every_file :
  forall cfg directory w names result w' name,
    supported_formats cfg = "" \/
    (exists s, supported_formats cfg = s +:+ ",") ->
    dirs w !! directory = Some names ->
    get_image_files cfg directory w = (Return result, w') ->
    name ∈ names ->
    is_Some (files w !! PosixPath.join directory name) ->
    PyStr.startswith (PyStr.lower name) "collage_" = false ->
    PosixPath.join directory name ∈ result.
Proof.
  intros cfg directory w names result w' name Hfmt Hd Hrun Hin Hf Hs.
  rewrite (get_image_files_run cfg directory w names Hd) in Hrun.
  injection Hrun as <- _. unfold sorted.
  rewrite (merge_sort_Permutation String.le). apply scanned_spec.
  exists name. split; [exact Hin|]. split; [reflexivity|].
  split; [unfold is_file; apply bool_decide_eq_true; exact Hf|].
  rewrite empty_format_keeps; [rewrite Hs; reflexivity|].
  unfold scan_formats. destruct Hfmt as [-> | [s ->]]; [set_solver|].
  destruct (split_trailing ","%char s) as (l & _ & ->). set_solver.
Qed.

Lemma empty_extension_matches_every_file_witness :
  "pics/thumbs/notes.txt"
  ∈ ["pics/thumbs/1.JPG"; "pics/thumbs/2.jpg"; "pics/thumbs/3.png";
     "pics/thumbs/4.jpg"; "pics/thumbs/5.jpeg"; "pics/thumbs/notes.txt"].
Proof.
  apply (empty_extension_matches_every_file trailing_comma_config
           "pics/thumbs" five_thumbs
           ["3.png"; "1.JPG"; "collage_1.jpg"; "5.jpeg"; "2.jpg";
            "notes.txt"; "4.jpg"]
           ["pics/thumbs/1.JPG"; "pics/thumbs/2.jpg"; "pics/thumbs/3.png";
            "pics/thumbs/4.jpg"; "pics/thumbs/5.jpeg"; "pics/thumbs/notes.txt"]
           (snd (get_image_files trailing_comma_config "pics/thumbs"
                   five_thumbs))
           "notes.txt").
  - right. exists ".jpg". reflexivity.
  - vm_compute. reflexivity.
  - vm_compute. reflexivity.
  - repeat constructor.
  - vm_compute. eauto.
  - vm_compute. reflexivity.
Defined.

(** X4: when every extension of [supported_formats] holds a capital
    letter, scanning any existing directory returns the empty list: the
    file names are lowered before the comparison, the extensions are
    not. *)
Theorem capital_extensions_match_nothing :
  forall cfg directory w names,
    (forall fmt, fmt ∈ PyStr.split ","%char (supported_formats cfg) ->
                 has_upper fmt = true) ->
    dirs w !! directory = Some names ->
    exists w', get_image_files cfg directory w = (Return [], w').
Proof.
  intros cfg directory w names Hup Hd.
  rewrite (get_image_files_run cfg directory w names Hd).
  assert (Hs : scanned cfg w directory names = []).
  { destruct (scanned cfg w directory names) as [|path l] eqn:E; [reflexivity|].
    assert (Hin : path ∈ scanned cfg w directory names)
      by (rewrite E; apply list_elem_of_here).
    apply scanned_spec in Hin as (name & _ & _ & _ & Hk).
    unfold keep_file in Hk. destruct (PyStr.startswith _ _); [discriminate|].
    apply existsb_exists in Hk as (fmt & Hfmt & He).
    rewrite endswith_lower_upper in He; [discriminate|].
    apply Hup, list_elem_of_In, Hfmt. }
  rewrite Hs. eauto.
Qed.

Lemma capital_extensions_match_nothing_witness :
  exists w', get_image_files upper_config "pics" mixed_case_dir = (Return [], w').
Proof.
  apply (capital_extensions_match_nothing upper_config "pics" mixed_case_dir
           ["a.JPG"; "b.jpg"]).
  - intros fmt Hin. apply list_elem_of_In in Hin. simpl in Hin.
    destruct Hin as [<-|[]]. reflexivity.
  - vm_compute. reflexivity.
Defined.

(** X5: whatever its outcome, [create_collages] changes no file other
    than a [collage_<k>.jpg] in the directory of the first image, only
    appends collage names to listings, creates no directory and prints
    nothing. *)
Theorem create_collages_touches_only_collages :
  forall jpeg cfg image_files target_size w,
    let w' := snd (create_collages jpeg cfg image_files target_size w) in
    (forall p,
        (forall first k,
            head image_files = Some first ->
            p <> PosixPath.join (PosixPath.dirname first)
                   ("collage_" +:+ PyStr.str_of_int (k + 1) +:+ ".jpg")) ->
        files w' !! p = files w !! p) /\
    (forall d names,
        dirs w !! d = Some names ->
        exists extra,
          dirs w' !! d = Some (names ++ extra) /\
          Forall (fun n => exists k,
                      n = "collage_" +:+ PyStr.str_of_int (k + 1) +:+ ".jpg")
                 extra) /\
    (forall d, dirs w !! d = None -> dirs w' !! d = None) /\
    printed w' = printed w.
Proof.
  intros jpeg cfg image_files t w w'.
  destruct (create_collages_world jpeg cfg image_files t w) as (F & D & P & _).
  fold w' in F, D, P. split; [|split; [|split; [|exact P]]].
  - intros p Hp. destruct (F p) as [E|(d & k & (first & Hh & ->) & ->)];
      [exact E|].
    destruct (Hp first k Hh). reflexivity.
  - intros d names Hd. specialize (D d). rewrite Hd in D.
    destruct D as (extra & E & Hex). exists extra. split; [exact E|].
    eapply Forall_impl; [exact Hex|]. intros n [k ->]. exists k. reflexivity.
  - intros d Hd. specialize (D d). rewrite Hd in D. exact D.
Qed.

(** Scanning after collages were added finds what it found before. *)
Lemma filter_filter {A} (f g : A -> bool) l :
  List.filter f (List.filter g l) = List.filter (fun x => g x && f x) l.
Proof.
  induction l as [|x l IH]; [reflexivity|]. simpl.
  destruct (g x); simpl; [destruct (f x)|]; rewrite ?IH; reflexivity.
Qed.

Lemma filter_ext_in' {A} (f g : A -> bool) l :
  (forall x, x ∈ l -> f x = g x) -> List.filter f l = List.filter g l.
Proof.
  intros H. apply filter_ext_in. intros x Hx. apply H, list_elem_of_In, Hx.
Qed.

Lemma filter_none {A} (f : A -> bool) l :
  (forall x, x ∈ l -> f x = false) -> List.filter f l = [].
Proof.
  induction l as [|x l IH]; intros H; [reflexivity|]. simpl.
  rewrite (H x) by apply list_elem_of_here.
  apply IH. intros y Hy. apply H, list_elem_of_further, Hy.
Qed.

Lemma collages_added_grown D w w' : collages_added D w w' -> fs_grown w w'.
Proof.
  intros (F & Dr & _). split; [|exact Dr].
  intros p. destruct (F p) as [E|(d & k & _ & ->)]; eauto.
Qed.




Lemma scanned_after_collages cfg w w' directory names extra :
  fs_grown w w' ->
  Forall (fun n => has_char PosixPath.sep n = false) names ->
  Forall (fun n => exists k, n = collage_name k) extra ->
  scanned cfg w' directory (names ++ extra) = scanned cfg w directory names.
Proof.
  intros (F & _) Hplain Hextra. unfold scanned. f_equal.
  rewrite !filter_filter, List.filter_app.
  rewrite (filter_none _ extra), app_nil_r.
  - apply filter_ext_in'. intros name Hin.
    destruct (keep_file (scan_formats cfg) name) eqn:Hk;
      [|rewrite !andb_false_r; reflexivity].
    rewrite !andb_true_r. unfold is_file.
    destruct (F (PosixPath.join directory name)) as [->|(d & k & E)];
      [reflexivity|].
    apply (f_equal PosixPath.basename) in E.
    rewrite Forall_forall in Hplain.
    rewrite basename_join, basename_output_path in E by auto.
    subst name. rewrite keep_file_collage in Hk. discriminate.
  - intros n Hn. rewrite Forall_forall in Hextra.
    destruct (Hextra n Hn) as [k ->]. rewrite keep_file_collage.
    apply andb_false_r.
Qed.

(** X6: collages never feed back into the scan. For a directory whose
    listing holds plain names, scanning after any run of [create_collages]
    (on any list, whether it returns or raises) finds what scanning before
    the run finds. *)
Theorem rescan_after_collages :
  forall jpeg cfg directory w names image_files target_size,
    dirs w !! directory = Some names ->
    Forall (fun name => has_char "/" name = false) names ->
    let w' := snd (create_collages jpeg cfg image_files target_size w) in
    fst (get_image_files cfg directory w')
    = fst (get_image_files cfg directory w).
Proof.
  intros jpeg cfg directory w names image_files t Hd Hplain w'.
  pose proof (create_collages_world jpeg cfg image_files t w) as Hw.
  fold w' in Hw. apply collages_added_grown in Hw. pose proof Hw as (_ & Dr).
  specialize (Dr directory). rewrite Hd in Dr. destruct Dr as (extra & Hd' & Hex).
  rewrite (get_image_files_run cfg directory w names Hd).
  rewrite (get_image_files_run cfg directory w' _ Hd'). simpl.
  rewrite (scanned_after_collages cfg w w' directory names extra Hw Hplain Hex).
  reflexivity.
Qed.

Lemma rescan_after_collages_witness :
  fst (get_image_files default_config "pics/thumbs"
         (snd (create_collages lossless default_config five_paths 1000
                 five_thumbs)))
  = fst (get_image_files default_config "pics/thumbs" five_thumbs).
Proof.
  apply (rescan_after_collages lossless default_config "pics/thumbs" five_thumbs
           ["3.png"; "1.JPG"; "collage_1.jpg"; "5.jpeg"; "2.jpg";
            "notes.txt"; "4.jpg"] five_paths 1000).
  - vm_compute. reflexivity.
  - repeat constructor.
Defined.

(** X7: [skip_errors] does not cover the first image. When the first
    path of the list is no image file, [create_collages] raises before any
    collage is made, with either setting of [skip_errors]:
    [UnidentifiedImageError] for a file that is no image,
    [IsADirectoryError] for a directory, [FileNotFoundError] when nothing
    is there; files, listings and printed lines are unchanged. *)
Theorem unreadable_first_image_aborts :
  forall jpeg cfg first rest target_size w,
    (forall sample, files w !! first <> Some (Picture sample)) ->
    exists w',
      create_collages jpeg cfg (first :: rest) target_size w
      = (Raise match files w !! first with
               | Some _ => UnidentifiedImageError
               | None => if bool_decide (is_Some (dirs w !! first))
                         then IsADirectoryError else FileNotFoundError
               end, w') /\
      files w' = files w /\ dirs w' = dirs w /\ printed w' = printed w.
Proof.
  intros jpeg cfg first rest t w Hf.
  unfold create_collages. rewrite bind_run, log_info, bind_run.
  set (w1 := add_logs w _).
  assert (Hwarn : exists r,
    (if t <? 100 then log WARNING (Target_size_too_small t) else ret tt) w1
    = (Return tt, add_logs w r)).
  { destruct (t <? 100).
    - rewrite log_warning. unfold w1. rewrite add_logs_add_logs. eauto.
    - unfold ret, w1. eauto. }
  destruct Hwarn as [r ->]. rewrite bind_run.
  unfold Image.open at 1. simpl files. simpl dirs.
  destruct (files w !! first) as [[|sample|c]|];
    try (eexists; split; [reflexivity|]; repeat split).
  destruct (Hf sample eq_refl).
Qed.

Lemma unreadable_first_image_aborts_witness :
  fst (create_collages lossless default_config
         ["pics/thumbs/notes.txt"; "pics/thumbs/1.JPG"] 1000 five_thumbs)
  = Raise UnidentifiedImageError /\
  fst (create_collages lossless default_config ["pics/thumbs"] 1000 five_thumbs)
  = Raise IsADirectoryError /\
  fst (create_collages lossless default_config ["pics/gone.jpg"] 1000
         five_thumbs)
  = Raise FileNotFoundError.
Proof.
  split; [|split].
  - destruct (unreadable_first_image_aborts lossless default_config
                "pics/thumbs/notes.txt" ["pics/thumbs/1.JPG"] 1000 five_thumbs)
      as (w' & Hrun & _).
    + intros sample. vm_compute. discriminate.
    + rewrite Hrun. vm_compute. reflexivity.
  - destruct (unreadable_first_image_aborts lossless default_config
                "pics/thumbs" [] 1000 five_thumbs) as (w' & Hrun & _).
    + intros sample. vm_compute. discriminate.
    + rewrite Hrun. vm_compute. reflexivity.
  - destruct (unreadable_first_image_aborts lossless default_config
                "pics/gone.jpg" [] 1000 five_thumbs) as (w' & Hrun & _).
    + intros sample. vm_compute. discriminate.
    + rewrite Hrun. vm_compute. reflexivity.
Defined.

(** ** Uniform thumbnails *)






(** X9: for a positive thumbnail width [images_per_collage] is the
    square of [images_per_row]. So the grid of a chunk (of at most 2^52
    images) has at most [images_per_row] cells a side, exactly that many
    for a full chunk, and the collage is at most as wide as the target
    size after clamping, or as one thumbnail when the thumbnail is wider
    than that. *)
Theorem collage_width_bounded :
  forall thumb_width target_size,
    0 < thumb_width ->
    exists images_per_row images_per_collage,
      compute_chunking thumb_width target_size
      = Return (images_per_row, images_per_collage) /\
      images_per_collage = images_per_row * images_per_row /\
      forall n,
        1 <= n <= images_per_collage -> n <= 2 ^ 52 ->
        exists g,
          calculate_grid_size n (clamp_target_size target_size)
          = Return (g, g) /\
          g <= images_per_row /\
          (n = images_per_collage -> g = images_per_row) /\
          g * thumb_width
          <= Z.max thumb_width
               (if target_size <? 100 then 2000 else target_size).
Proof.
  intros tw t Htw. rewrite compute_chunking_run by lia.
  set (ipr := Z.max 1 (clamp_target_size t / tw)).
  exists ipr, (Z.max 1 (ipr * ipr)).
  assert (Hipr : 1 <= ipr) by (unfold ipr; lia).
  assert (Hsq : Z.max 1 (ipr * ipr) = ipr * ipr) by nia.
  split; [reflexivity|]. split; [exact Hsq|].
  rewrite Hsq. intros n Hn Hn52.
  destruct (calculate_grid_size_upto_2_52 n (clamp_target_size t) ltac:(lia))
    as (g & Hgrid & Hg & Hlo & Hhi).
  exists g. split; [exact Hgrid|].
  assert (Hle : g <= ipr) by nia.
  split; [exact Hle|]. split.
  { intros ->. destruct (Z.eq_dec g ipr) as [|Hne]; [assumption|exfalso].
    assert (g * g <= (ipr - 1) * (ipr - 1)) by (apply Z.mul_le_mono_nonneg; lia).
    lia. }
  assert (ipr * tw <= Z.max tw (clamp_target_size t)).
  { unfold ipr.
    pose proof (Z.div_mod (clamp_target_size t) tw ltac:(lia)).
    pose proof (Z.mod_pos_bound (clamp_target_size t) tw Htw).
    destruct (Z.max_spec 1 (clamp_target_size t / tw)) as [[? ->]|[? ->]]; nia. }
  unfold clamp_target_size in *. nia.
Qed.

Lemma collage_width_bounded_witness :
  exists images_per_row images_per_collage,
    compute_chunking 400 1000 = Return (images_per_row, images_per_collage) /\
    images_per_collage = images_per_row * images_per_row.
Proof.
  destruct (collage_width_bounded 400 1000) as (ipr & ipc & H1 & H2 & _).
  - lia.
  - exists ipr, ipc. split; assumption.
Defined.

(** ** Building the generator *)

Lemma load_config_reads config_path c w :
  files w !! config_path = Some (Ini c) ->
  _load_config config_path w = (Return c, w).
Proof.
  intros Hf. unfold _load_config, bind, path_exists. cbv beta. rewrite Hf.
  rewrite bool_decide_eq_true_2 by eauto.
  change (true || ?b) with true. cbv iota.
  unfold read_config. rewrite Hf. reflexivity.
Qed.

Lemma main_with_config_run jpeg config_path cfg directory size w :
  files w !! config_path = Some (Ini cfg) ->
  main_with_config jpeg config_path directory size w
  = main jpeg cfg directory size w.
Proof.
  intros Hf. unfold main_with_config, CollageGenerator_init.
  rewrite bind_run, (load_config_reads config_path cfg w Hf). reflexivity.
Qed.



(** ** The driver *)

Lemma add_lines_nil w : add_lines w [] = w.
Proof. destruct w; unfold add_lines; simpl. rewrite app_nil_r. reflexivity. Qed.

Lemma add_lines_add_lines w l1 l2 :
  add_lines (add_lines w l1) l2 = add_lines w (l1 ++ l2).
Proof. unfold add_lines; simpl. rewrite <- app_assoc. reflexivity. Qed.

Lemma for_each_print {A} (f : A -> line) l w :
  for_each l (fun x => print (f x)) w = (Return tt, add_lines w (f <$> l)).
Proof.
  revert w. induction l as [|x l IH]; intros w; simpl.
  - unfold ret. rewrite add_lines_nil. reflexivity.
  - rewrite bind_run, print_run, IH, add_lines_add_lines. reflexivity.
Qed.

Lemma is_dir_false w path : dirs w !! path = None -> is_dir w path = false.
Proof.
  intros H. unfold is_dir. rewrite H.
  apply bool_decide_eq_false_2. intros [? ?]; discriminate.
Qed.

Section DriverRuns.

Variable jpeg : Z -> raster -> raster.
Variable cfg : config.

Lemma process_subdir_no_thumbs directory size subdir w :
  dirs w !! PosixPath.join (PosixPath.join directory subdir) "thumbs" = None ->
  process_subdir jpeg cfg directory size subdir w
  = (Return tt,
     add_lines w [Processing_subdirectory subdir; No_thumbs_directory subdir]).
Proof.
  intros Hd. unfold process_subdir.
  rewrite bind_run, print_run, bind_run, isdir_run.
  change (is_dir (add_lines w [Processing_subdirectory subdir]) ?p)
    with (is_dir w p).
  rewrite (is_dir_false w _ Hd). change (negb false) with true. cbv iota.
  rewrite print_run, add_lines_add_lines. reflexivity.
Qed.

Lemma for_each_no_thumbs directory size subdirs w :
  (forall d, d ∈ subdirs ->
     dirs w !! PosixPath.join (PosixPath.join directory d) "thumbs" = None) ->
  for_each subdirs (process_subdir jpeg cfg directory size) w
  = (Return tt,
     add_lines w (flat_map (fun s => [Processing_subdirectory s;
                                      No_thumbs_directory s]) subdirs)).
Proof.
  revert w. induction subdirs as [|d subdirs IH]; intros w H.
  - simpl. unfold ret. rewrite add_lines_nil. reflexivity.
  - simpl for_each. rewrite bind_run.
    rewrite process_subdir_no_thumbs by (apply H, list_elem_of_here).
    rewrite IH by (intros d' Hd'; simpl; apply H, list_elem_of_further, Hd').
    rewrite add_lines_add_lines. reflexivity.
Qed.

End DriverRuns.

(** X11: with a settings file in place, and no [thumbs] directory under
    the given directory nor under any of its entries, [main] returns
    normally and changes no file, no listing and no log record. It prints
    one line when the directory has no subdirectory, and otherwise two
    lines for each subdirectory in listing order: that it is processed, and
    that it has no thumbs directory. *)
Theorem main_without_thumbs :
  forall jpeg config_path cfg directory size w names,
    files w !! config_path = Some (Ini cfg) ->
    dirs w !! PosixPath.join directory "thumbs" = None ->
    dirs w !! directory = Some names ->
    (forall d, d ∈ names ->
       dirs w !! PosixPath.join (PosixPath.join directory d) "thumbs" = None) ->
    let subdirs :=
      List.filter (fun d => bool_decide
                              (is_Some (dirs w !! PosixPath.join directory d)))
                  names in
    exists w',
      main_with_config jpeg config_path directory size w = (Return tt, w') /\
      files w' = files w /\ dirs w' = dirs w /\ logged w' = logged w /\
      printed w'
      = printed w ++
        match subdirs with
        | [] => [No_subdirectories]
        | _ :: _ => flat_map (fun s => [Processing_subdirectory s;
                                        No_thumbs_directory s]) subdirs
        end.
Proof.
  intros jpeg config_path cfg directory size w names Hcfg Hroot Hnames Hnone
         subdirs.
  rewrite (main_with_config_run jpeg config_path cfg directory size w Hcfg).
  unfold main. rewrite bind_run, isdir_run, (is_dir_false w _ Hroot). cbv iota.
  rewrite bind_run. unfold listdir at 1. rewrite Hnames.
  rewrite bind_run.
  rewrite (filter_if_reads _ (fun w d => is_dir w (PosixPath.join directory d)))
    by reflexivity.
  change (List.filter _ names) with subdirs.
  destruct subdirs as [|d l] eqn:E.
  - rewrite print_run. eexists. split; [reflexivity|]. repeat split.
  - rewrite <- E. rewrite for_each_no_thumbs.
    + eexists. split; [reflexivity|]. repeat split.
    + intros d' Hd'. apply Hnone.
      unfold subdirs in Hd'. apply list_elem_of_In, filter_In in Hd' as [Hd' _].
      apply list_elem_of_In, Hd'.
Qed.

Lemma main_without_thumbs_witness :
  exists w',
    main_with_config lossless "settings.ini" "empty" 2000 configured
    = (Return tt, w') /\
    files w' = files configured /\ dirs w' = dirs configured /\
    printed w' = [Processing_subdirectory "sub"; No_thumbs_directory "sub"].
Proof.
  destruct (main_without_thumbs lossless "settings.ini" default_config "empty"
              2000 configured ["notes.txt"; "collage_1.jpg"; "sub"])
    as (w' & Hrun & Hf & Hd & _ & Hp).
  - vm_compute. reflexivity.
  - vm_compute. reflexivity.
  - vm_compute. reflexivity.
  - intros d Hin. apply list_elem_of_In in Hin. simpl in Hin.
    destruct Hin as [<-|[<-|[<-|[]]]]; vm_compute; reflexivity.
  - exists w'. split; [exact Hrun|]. split; [exact Hf|]. split; [exact Hd|].
    rewrite Hp. vm_compute. reflexivity.
Defined.


(** X15: with a settings file in place, when neither the given directory
    nor a [thumbs] directory under it exists, [main] raises where it lists
    the directory: [NotADirectoryError] if the path is a regular file,
    otherwise [FileNotFoundError]. Nothing is printed, logged or
    written. *)
Theorem main_missing_directory :
  forall jpeg config_path cfg directory size w,
    files w !! config_path = Some (Ini cfg) ->
    dirs w !! PosixPath.join directory "thumbs" = None ->
    dirs w !! directory = None ->
    main_with_config jpeg config_path directory size w
    = (Raise (if bool_decide (is_Some (files w !! directory))
              then NotADirectoryError else FileNotFoundError), w).
Proof.
  intros jpeg config_path cfg directory size w Hcfg Hroot Hd.
  rewrite (main_with_config_run jpeg config_path cfg directory size w Hcfg).
  unfold main. rewrite bind_run, isdir_run, (is_dir_false w _ Hroot). cbv iota.
  rewrite bind_run. unfold listdir at 1. rewrite Hd. reflexivity.
Qed.

Lemma main_missing_directory_witness :
  main_with_config lossless "settings.ini" "nowhere" 2000 configured
  = (Raise FileNotFoundError, configured).
Proof.
  apply (main_missing_directory lossless "settings.ini" default_config
           "nowhere" 2000 configured).
  - vm_compute. reflexivity.
  - vm_compute. reflexivity.
  - vm_compute. reflexivity.
Defined.

(** ** A run that returns *)

Section Returns.

Variable jpeg : Z -> raster -> raster.
Variable cfg : config.


Lemma report_returns (head : Z -> line) (paths : list string) w :
  match paths with
  | [] => ret tt
  | _ :: _ =>
      print (head (len paths)) ;;;
      for_each paths (fun path => print (Collage_path path))
  end w
  = (Return tt,
     add_lines w match paths with
                 | [] => []
                 | _ :: _ => head (len paths) :: (Collage_path <$> paths)
                 end).
Proof.
  destruct paths as [|p ps].
  - unfold ret. rewrite add_lines_nil. reflexivity.
  - rewrite bind_run, print_run, for_each_print, add_lines_add_lines.
    reflexivity.
Qed.




End Returns.




Section Pipeline.

Variable jpeg : Z -> raster -> raster.
Variable cfg : config.




End Pipeline.



Lemma endswith_app_sep a b :
  b <> EmptyString ->
  PyStr.endswith (a +:+ b) (String PosixPath.sep EmptyString)
  = PyStr.endswith b (String PosixPath.sep EmptyString).
Proof.
  intros Hb. induction a as [|x a IH]; [reflexivity|].
  rewrite append_cons, endswith_cons, IH.
  destruct (String.eqb _ _) eqn:E; [|reflexivity].
  apply String.eqb_eq in E. injection E as _ E.
  destruct a; [rewrite append_nil in E; congruence | rewrite append_cons in E; discriminate].
Qed.

Lemma join_thumbs directory :
  PosixPath.join directory "thumbs" <> EmptyString /\
  PyStr.endswith (PosixPath.join directory "thumbs")
    (String PosixPath.sep EmptyString) = false.
Proof.
  unfold PosixPath.join.
  change (PyStr.startswith "thumbs" (String PosixPath.sep EmptyString))
    with false. cbv iota.
  destruct (_ || _).
  - split.
    + destruct directory; [rewrite append_nil | rewrite append_cons]; discriminate.
    + rewrite endswith_app_sep by discriminate. reflexivity.
  - split.
    + destruct directory; [rewrite append_nil | rewrite append_cons]; discriminate.
    + rewrite endswith_app_sep by discriminate. reflexivity.
Qed.

(** X10: a [thumbs] directory directly under the given directory takes
    precedence: with a settings file in place, [main] then works on it
    alone. Whether the run returns or raises, the only files that can
    change are [collage_<k>.jpg] in that directory, the listing of every
    other directory stays as it was, and no subdirectory is announced,
    even when subdirectories with their own [thumbs] exist. *)
Theorem root_thumbs_takes_precedence :
  forall jpeg config_path cfg directory size w names,
    let root := PosixPath.join directory "thumbs" in
    files w !! config_path = Some (Ini cfg) ->
    dirs w !! root = Some names ->
    Forall (fun name => has_char "/" name = false) names ->
    let w' := snd (main_with_config jpeg config_path directory size w) in
    (forall p,
        files w' !! p = files w !! p \/
        exists k, p = PosixPath.join root
                        ("collage_" +:+ PyStr.str_of_int (k + 1) +:+ ".jpg")) /\
    (forall d, d <> root -> dirs w' !! d = dirs w !! d) /\
    (exists lines,
        printed w' = printed w ++ Processing_root_thumbs :: lines /\
        forall subdir, Processing_subdirectory subdir ∉ lines).
Proof.
  intros jpeg config_path cfg directory size w names root Hcfg Hd Hplain w'.
  assert (Hroot : is_dir w root = true).
  { unfold is_dir. rewrite Hd. apply bool_decide_eq_true_2. eauto. }
  subst w'.
  rewrite (main_with_config_run jpeg config_path cfg directory size w Hcfg).
  unfold main. fold root.
  rewrite bind_run, isdir_run, Hroot. cbv iota.
  rewrite bind_run, print_run, bind_run.
  rewrite (get_image_files_run cfg root (add_lines w [Processing_root_thumbs])
             names Hd).
  change (scanned cfg (add_lines w [Processing_root_thumbs]) root names)
    with (scanned cfg w root names).
  destruct (sorted (scanned cfg w root names)) as [|first rest] eqn:E.
  - unfold ret. simpl. split; [auto|]. split; [auto|].
    exists []. split; [reflexivity|]. intros s Hs. inversion Hs.
  - assert (Hin : first ∈ scanned cfg w root names).
    { assert (H : first ∈ sorted (scanned cfg w root names))
        by (rewrite E; apply list_elem_of_here).
      unfold sorted in H. rewrite (merge_sort_Permutation String.le) in H.
      exact H. }
    apply scanned_spec in Hin as (name & Hname & Hfirst & _).
    rewrite Forall_forall in Hplain.
    destruct (join_thumbs directory) as [Hne Hend]. fold root in Hne, Hend.
    assert (Hdn : PosixPath.dirname first = root).
    { rewrite Hfirst. apply dirname_join; auto. }
    rewrite bind_run, print_run, bind_run.
    set (w1 := add_lines _ [Found_in_root _]).
    pose proof (create_collages_world jpeg cfg (first :: rest) size w1)
      as (F & _ & P & K).
    assert (Hfiles : forall w2, files w2 = files (snd (create_collages jpeg cfg
                                         (first :: rest) size w1)) ->
      forall p, files w2 !! p = files w !! p \/
        exists k, p = PosixPath.join root
                        ("collage_" +:+ PyStr.str_of_int (k + 1) +:+ ".jpg")).
    { intros w2 -> p.
      destruct (F p) as [Ep|(d & k & (f & Hf & ->) & ->)];
        [left; exact Ep|].
      right. exists k. injection Hf as <-. rewrite Hdn. reflexivity. }
    assert (Hdirs : forall w2, dirs w2 = dirs (snd (create_collages jpeg cfg
                                         (first :: rest) size w1)) ->
      forall d, d <> root -> dirs w2 !! d = dirs w !! d).
    { intros w2 -> d Hdr.
      destruct (K d) as [Ed|(d1 & k & (f & Hf & ->) & ->)]; [exact Ed|].
      injection Hf as <-. exfalso. apply Hdr. rewrite Hdn.
      apply dirname_join; auto. apply collage_name_plain. }
    destruct (create_collages jpeg cfg (first :: rest) size w1)
      as [[paths|e] w2] eqn:Hrun; simpl snd in *.
    + rewrite report_returns. simpl snd.
      split; [apply Hfiles; reflexivity|].
      split; [apply Hdirs; reflexivity|].
      simpl printed. rewrite P. unfold w1. simpl printed.
      rewrite <- !app_assoc. simpl app.
      eexists. split; [reflexivity|].
      intros s Hs. apply elem_of_cons in Hs as [Hs|Hs]; [discriminate|].
      destruct paths as [|p ps]; [inversion Hs|].
      apply elem_of_cons in Hs as [Hs|Hs]; [discriminate|].
      apply list_elem_of_fmap in Hs as (q & Hq & _). discriminate.
    + split; [apply Hfiles; reflexivity|].
      split; [apply Hdirs; reflexivity|].
      rewrite P. unfold w1. simpl printed.
      rewrite <- !app_assoc. simpl app.
      eexists. split; [reflexivity|].
      intros s Hs. apply elem_of_cons in Hs as [Hs|Hs]; [discriminate|].
      inversion Hs.
Qed.

Lemma root_thumbs_takes_precedence_witness :
  dirs (snd (main_with_config lossless "settings.ini" "p" 1000 rooted_albums))
    !! "p/a/thumbs"
  = Some ["x.jpg"] /\
  files (snd (main_with_config lossless "settings.ini" "p" 1000 rooted_albums))
    !! "p/a/thumbs/collage_1.jpg"
  = None.
Proof.
  destruct (root_thumbs_takes_precedence lossless "settings.ini" default_config
              "p" 1000 rooted_albums ["r.jpg"]) as (Hf & Hd & _).
  - vm_compute. reflexivity.
  - vm_compute. reflexivity.
  - repeat constructor.
  - split.
    + rewrite Hd by discriminate. vm_compute. reflexivity.
    + destruct (Hf "p/a/thumbs/collage_1.jpg") as [->|[k Hk]];
        [vm_compute; reflexivity|].
      exfalso. apply (f_equal PosixPath.dirname) in Hk.
      rewrite (dirname_join "p/thumbs") in Hk;
        [discriminate | discriminate | reflexivity | apply collage_name_plain].
Defined.

(** ** What the collages hold *)



(** ** Running the composer again *)




Section Again.

Variable jpeg : Z -> raster -> raster.
Variable cfg : config.




End Again.


